(** * GapConductance: gap heat-transfer coefficient of the heat_conduction module

    A shallow embedding of
    [modules/heat_conduction/src/materials/GapConductance.C] and the
    properties of it that the specification states.

    Number model.  The source computes with [Real] (C++ [double]).  Here
    [Real] is the field [R] of mathematical reals: every formula keeps the
    source's operations and their order, while rounding, infinities and NaN
    are outside the model.  Comparisons are the decidable order of [R].

    Division by 0 and the logarithm of a number that is not positive give an
    infinity or NaN in the source and have no counterpart in [R] (whose
    division and [ln] are total and return 0 there).  Where such a value
    decides the control flow, in [computeGapRadii], the model takes the
    source's branch explicitly.  Where it would be stored, in the gap lengths
    and the conduction term, the model's value is meaningless, and every
    statement about such a value carries the hypotheses that keep the
    divisors away from 0 and the logarithm's argument positive. *)

From Stdlib Require Import Reals Lra List.
From stdpp Require Import base decidable option strings gmap.

Open Scope R_scope.

(** ** Real numbers and the C++ standard library *)

(** [Real] *)
Abbreviation Real := R (only parsing).

#[global] Instance Req_decision : EqDecision R := Req_dec_T.
#[global] Instance Rlt_decision : RelDecision Rlt := Rlt_dec.
#[global] Instance Rle_decision : RelDecision Rle := Rle_dec.
#[global] Instance Rge_decision : RelDecision Rge := Rge_dec.
#[global] Instance Rgt_decision : RelDecision Rgt := Rgt_dec.

Module Std.

(** [std::max(a, b)] is [(a < b) ? b : a]. *)
Definition max (a b : Real) : Real := if decide (a < b) then b else a.

(** [std::min(a, b)] is [(b < a) ? b : a]. *)
Definition min (a b : Real) : Real := if decide (b < a) then b else a.

(** [std::log]; the natural logarithm (of a positive argument). *)
Definition log (x : Real) : Real := ln x.

(** [std::pow(x, 2.0)], the only exponent the source uses. *)
Definition pow2 (x : Real) : Real := x * x.

End Std.

(** ** Points ([libMesh::Point], three components) *)

Record Point := mkPoint { px : Real; py : Real; pz : Real }.

Module Pt.

Definition sub (a b : Point) : Point :=
  mkPoint (px a - px b) (py a - py b) (pz a - pz b).

Definition add (a b : Point) : Point :=
  mkPoint (px a + px b) (py a + py b) (pz a + pz b).

(** [t * p] *)
Definition scale (t : Real) (p : Point) : Point :=
  mkPoint (t * px p) (t * py p) (t * pz p).

(** [p /= d] *)
Definition div (p : Point) (d : Real) : Point :=
  mkPoint (px p / d) (py p / d) (pz p / d).

(** [a * b], the inner product *)
Definition dot (a b : Point) : Real :=
  px a * px b + py a * py b + pz a * pz b.

Definition norm_sq (a : Point) : Real := dot a a.

Definition norm (a : Point) : Real := sqrt (norm_sq a).

End Pt.

(** ** Errors

    [mooseError] ends the run; a computation that reaches it yields no
    value. *)

Inductive result (A : Type) : Type :=
| Ok (a : A)
| MooseError (msg : string).
Arguments Ok {A} a.
Arguments MooseError {A} msg.

Definition is_ok {A} (r : result A) : bool :=
  match r with Ok _ => true | MooseError _ => false end.

(** ** Enumerations *)

Inductive GAP_GEOMETRY := PLATE | CYLINDER | SPHERE.

Inductive CoordinateSystemType := COORD_XYZ | COORD_RZ | COORD_RSPHERICAL.

#[global] Instance GAP_GEOMETRY_eq_dec : EqDecision GAP_GEOMETRY.
Proof. solve_decision. Defined.

#[global] Instance CoordinateSystemType_eq_dec : EqDecision CoordinateSystemType.
Proof. solve_decision. Defined.

(** ** Input parameters

    The parameters that [actionParameters] and [validParams] declare and the
    code reads.  A parameter without a default is [None] until the user sets
    it ([isParamValid], and for the geometry type [isParamSetByUser]). *)

(** [Function::value(t, p)] *)
Definition Function := Real -> Point -> Real.

(** A coupled variable's values at the quadrature points. *)
Definition VariableValue := nat -> Real.

Record InputParameters := mkInputParameters {
  gap_geometry_type : option GAP_GEOMETRY;
  cylinder_axis_point_1 : option Point;
  cylinder_axis_point_2 : option Point;
  sphere_origin : option Point;
  emissivity_1 : Real;
  emissivity_2 : Real;
  warnings : bool;
  min_gap : Real;
  max_gap : Real;
  gap_distance : option VariableValue;
  gap_temp : option VariableValue;
  gap_conductivity : Real;
  gap_conductivity_function : option Function;
  gap_conductivity_function_variable : option VariableValue;
  quadrature : bool;
  paired_boundary : option string;
  stefan_boltzmann : Real
}.

(** *** Range-checked parameters

    [addRangeCheckedParam] attaches a range expression to a parameter.  The
    expressions of this file use comparison with a constant and [&]; they are
    given the meaning their text has, and a value outside its range is a
    fatal error when the parameters are checked. *)

Inductive RangeExpr :=
| GE (c : Real)
| LE (c : Real)
| AND (a b : RangeExpr).

Fixpoint range_holds (e : RangeExpr) (v : Real) : bool :=
  match e with
  | GE c => bool_decide (v >= c)
  | LE c => bool_decide (v <= c)
  | AND a b => range_holds a v && range_holds b v
  end.

(** "emissivity_1>=0 & emissivity_1<=1" *)
Definition emissivity_1_range : RangeExpr := AND (GE 0) (LE 1).
(** "emissivity_2>=0 & emissivity_2<=1" *)
Definition emissivity_2_range : RangeExpr := AND (GE 0) (LE 1).
(** "min_gap>=0" *)
Definition min_gap_range : RangeExpr := GE 0.
(** "max_gap>=0" *)
Definition max_gap_range : RangeExpr := GE 0.

Definition rangeCheck (name : string) (e : RangeExpr) (v : Real) : result unit :=
  if range_holds e v then Ok tt
  else MooseError ("Range check failed for parameter " ++ name).

Definition bind_result {A B} (r : result A) (k : A -> result B) : result B :=
  match r with
  | Ok a => k a
  | MooseError m => MooseError m
  end.

Definition checkRanges (params : InputParameters) : result unit :=
  bind_result (rangeCheck "emissivity_1" emissivity_1_range (emissivity_1 params)) (fun _ =>
  bind_result (rangeCheck "emissivity_2" emissivity_2_range (emissivity_2 params)) (fun _ =>
  bind_result (rangeCheck "min_gap" min_gap_range (min_gap params)) (fun _ =>
  rangeCheck "max_gap" max_gap_range (max_gap params)))).

(** ** [GapConductance::setGapGeometryParameters]

    [gap_geometry_type], [p1] and [p2] are reference parameters: the values
    passed in are returned unchanged where the code does not assign them. *)

Definition setGapGeometryParameters
    (params : InputParameters) (coord_sys : CoordinateSystemType)
    (gap_geometry_type0 : GAP_GEOMETRY) (p1 p2 : Point)
  : result (GAP_GEOMETRY * Point * Point) :=
  let gap_geometry_type1 :=
    match gap_geometry_type params with
    | Some g => g
    | None =>
        match coord_sys with
        | COORD_XYZ => PLATE
        | COORD_RZ => CYLINDER
        | COORD_RSPHERICAL => SPHERE
        end
    end in
  match gap_geometry_type1 with
  | PLATE =>
      match coord_sys with
      | COORD_RSPHERICAL =>
          MooseError "'gap_geometry_type = PLATE' cannot be used with models having a spherical coordinate system."
      | _ => Ok (gap_geometry_type1, p1, p2)
      end
  | CYLINDER =>
      match coord_sys with
      | COORD_XYZ =>
          match cylinder_axis_point_1 params, cylinder_axis_point_2 params with
          | Some a1, Some a2 => Ok (gap_geometry_type1, a1, a2)
          | _, _ =>
              MooseError "For 'gap_geometry_type = CYLINDER' to be used with a Cartesian model, 'cylinder_axis_point_1' and 'cylinder_axis_point_2' must be specified."
          end
      | COORD_RZ =>
          match cylinder_axis_point_1 params, cylinder_axis_point_2 params with
          | None, None => Ok (gap_geometry_type1, mkPoint 0 0 0, mkPoint 0 1 0)
          | _, _ =>
              MooseError "The 'cylinder_axis_point_1' and 'cylinder_axis_point_2' cannot be specified with axisymmetric models.  The y-axis is used as the cylindrical axis of symmetry."
          end
      | COORD_RSPHERICAL =>
          MooseError "'gap_geometry_type = CYLINDER' cannot be used with models having a spherical coordinate system."
      end
  | SPHERE =>
      match coord_sys with
      | COORD_XYZ | COORD_RZ =>
          match sphere_origin params with
          | Some o => Ok (gap_geometry_type1, o, p2)
          | None =>
              MooseError "For 'gap_geometry_type = SPHERE' to be used with a Cartesian or axisymmetric model, 'sphere_origin' must be specified."
          end
      | COORD_RSPHERICAL =>
          match sphere_origin params with
          | Some _ =>
              MooseError "The 'sphere_origin' cannot be specified with spherical models.  x=0 is used as the spherical origin."
          | None => Ok (gap_geometry_type1, mkPoint 0 0 0, p2)
          end
      end
  end.

(** ** The material object

    The members are split by who writes them: [Config] holds what the
    constructor and [initialSetup] fix, [Context] what the framework supplies
    for the point being evaluated, [State] what the evaluation of a point
    assigns. *)

Record Config := mkConfig {
  _quadrature : bool;
  _gap_geometry_type : GAP_GEOMETRY;
  _p1 : Point;
  _p2 : Point;
  _gap_distance_value : VariableValue;
  _gap_temp_value : VariableValue;
  _gap_conductivity : Real;
  _gap_conductivity_function : option Function;
  _gap_conductivity_function_variable : option VariableValue;
  _stefan_boltzmann : Real;
  _emissivity : Real;
  _min_gap : Real;
  _max_gap : Real;
  _warnings : bool
}.

(** [_zero], the variable value the framework keeps at 0. *)
Definition _zero : VariableValue := fun _ => 0.

(** The constructor: member initialisers, then the checks of its body.  The
    object's name, which the source appends to each message, is left out. *)
Definition GapConductance_ctor (parameters : InputParameters) : result Config :=
  let cfg :=
    {| _quadrature := quadrature parameters;
       _gap_geometry_type := PLATE;
       _p1 := mkPoint 0 0 0;
       _p2 := mkPoint 0 0 0;
       _gap_distance_value :=
         if quadrature parameters then _zero
         else default _zero (gap_distance parameters);
       _gap_temp_value :=
         if quadrature parameters then _zero
         else default _zero (gap_temp parameters);
       _gap_conductivity := gap_conductivity parameters;
       _gap_conductivity_function := gap_conductivity_function parameters;
       _gap_conductivity_function_variable :=
         gap_conductivity_function_variable parameters;
       _stefan_boltzmann := stefan_boltzmann parameters;
       _emissivity :=
         if bool_decide (emissivity_1 parameters <> 0)
            && bool_decide (emissivity_2 parameters <> 0)
         then 1 / emissivity_1 parameters + 1 / emissivity_2 parameters - 1
         else 0;
       _min_gap := min_gap parameters;
       _max_gap := max_gap parameters;
       _warnings := warnings parameters |} in
  if quadrature parameters then
    match paired_boundary parameters with
    | None => MooseError "No 'paired_boundary' provided for "
    | Some _ => Ok cfg
    end
  else
    match gap_distance parameters, gap_temp parameters with
    | None, _ => MooseError "No 'gap_distance' provided for "
    | Some _, None => MooseError "No 'gap_temp' provided for "
    | Some _, Some _ => Ok cfg
    end.

(** [initialSetup]: resolves the geometry members. *)
Definition initialSetup (_pars : InputParameters) (_coord_sys : CoordinateSystemType)
    (cfg : Config) : result Config :=
  bind_result
    (setGapGeometryParameters _pars _coord_sys (_gap_geometry_type cfg) (_p1 cfg) (_p2 cfg))
    (fun '(g, p1, p2) =>
       Ok {| _quadrature := _quadrature cfg;
             _gap_geometry_type := g;
             _p1 := p1;
             _p2 := p2;
             _gap_distance_value := _gap_distance_value cfg;
             _gap_temp_value := _gap_temp_value cfg;
             _gap_conductivity := _gap_conductivity cfg;
             _gap_conductivity_function := _gap_conductivity_function cfg;
             _gap_conductivity_function_variable :=
               _gap_conductivity_function_variable cfg;
             _stefan_boltzmann := _stefan_boltzmann cfg;
             _emissivity := _emissivity cfg;
             _min_gap := _min_gap cfg;
             _max_gap := _max_gap cfg;
             _warnings := _warnings cfg |}).

(** Setting up an object: the parameter range checks, the constructor,
    [initialSetup]. *)
Definition setup (parameters : InputParameters) (coord_sys : CoordinateSystemType)
  : result Config :=
  bind_result (checkRanges parameters) (fun _ =>
  bind_result (GapConductance_ctor parameters) (fun cfg =>
  initialSetup parameters coord_sys cfg)).

(** *** What the framework supplies for a point *)

Definition Elem := nat.
Definition dof_id_type := nat.

Record Node := mkNode { node_id : dof_id_type; node_point : Point }.

Record PenetrationInfo := mkPenetrationInfo {
  _distance : Real;
  _side : Elem;
  _side_phi : list (list Real)
}.

Record Context := mkContext {
  _qp : nat;
  _t : Real;
  _q_point : nat -> Point;
  _normals : nat -> Point;
  (** [coupledValue("variable")] *)
  _temp : VariableValue;
  (** [_mesh.getQuadratureNode(_current_elem, _current_side, _qp)] *)
  getQuadratureNode : Node;
  processor_id : nat;
  (** [_dof_map->dof_indices(side, indices, _temp_var->number())] *)
  dof_indices : Elem -> list dof_id_type;
  (** the current solution, by degree of freedom *)
  _serialized_solution : dof_id_type -> Real
}.

(** *** What the evaluation of a point assigns *)

(** A [mooseWarning] of [computeGapValues]: "No gap value information found
    for node N on processor P at coordinate C". *)
Record Warning := mkWarning {
  warn_node : dof_id_type;
  warn_processor : nat;
  warn_coordinate : Point
}.

Record State := mkState {
  _gap_temp : Real;
  _gap_distance : Real;
  _radius : Real;
  _r1 : Real;
  _r2 : Real;
  _has_info : bool;
  (** the declared material properties, by quadrature point *)
  _gap_conductance : gmap nat Real;
  _gap_conductance_dT : gmap nat Real;
  _gap_thermal_conductivity : gmap nat Real;
  (** [_penetration_locator->_penetration_info]; a null pointer is [None] *)
  _penetration_info : gmap dof_id_type (option PenetrationInfo);
  (** the warnings issued so far, latest first *)
  warning_log : list Warning
}.

(** The members as the constructor leaves them. *)
Definition initial_state
    (pinfo : gmap dof_id_type (option PenetrationInfo)) : State :=
  {| _gap_temp := 0; _gap_distance := 88888; _radius := 0; _r1 := 0; _r2 := 0;
     _has_info := false;
     _gap_conductance := ∅; _gap_conductance_dT := ∅;
     _gap_thermal_conductivity := ∅;
     _penetration_info := pinfo;
     warning_log := [] |}.

Definition set_gap_temp (v : Real) (s : State) : State :=
  {| _gap_temp := v;
     _gap_distance := _gap_distance s;
     _radius := _radius s;
     _r1 := _r1 s;
     _r2 := _r2 s;
     _has_info := _has_info s;
     _gap_conductance := _gap_conductance s;
     _gap_conductance_dT := _gap_conductance_dT s;
     _gap_thermal_conductivity := _gap_thermal_conductivity s;
     _penetration_info := _penetration_info s;
     warning_log := warning_log s |}.

Definition set_gap_distance (v : Real) (s : State) : State :=
  {| _gap_temp := _gap_temp s;
     _gap_distance := v;
     _radius := _radius s;
     _r1 := _r1 s;
     _r2 := _r2 s;
     _has_info := _has_info s;
     _gap_conductance := _gap_conductance s;
     _gap_conductance_dT := _gap_conductance_dT s;
     _gap_thermal_conductivity := _gap_thermal_conductivity s;
     _penetration_info := _penetration_info s;
     warning_log := warning_log s |}.

Definition set_has_info (v : bool) (s : State) : State :=
  {| _gap_temp := _gap_temp s;
     _gap_distance := _gap_distance s;
     _radius := _radius s;
     _r1 := _r1 s;
     _r2 := _r2 s;
     _has_info := v;
     _gap_conductance := _gap_conductance s;
     _gap_conductance_dT := _gap_conductance_dT s;
     _gap_thermal_conductivity := _gap_thermal_conductivity s;
     _penetration_info := _penetration_info s;
     warning_log := warning_log s |}.

Definition set_radii (r1 r2 radius : Real) (s : State) : State :=
  {| _gap_temp := _gap_temp s; _gap_distance := _gap_distance s;
     _radius := radius; _r1 := r1; _r2 := r2;
     _has_info := _has_info s;
     _gap_conductance := _gap_conductance s;
     _gap_conductance_dT := _gap_conductance_dT s;
     _gap_thermal_conductivity := _gap_thermal_conductivity s;
     _penetration_info := _penetration_info s;
     warning_log := warning_log s |}.

Definition set_gap_conductance (qp : nat) (v : Real) (s : State) : State :=
  {| _gap_temp := _gap_temp s; _gap_distance := _gap_distance s;
     _radius := _radius s; _r1 := _r1 s; _r2 := _r2 s;
     _has_info := _has_info s;
     _gap_conductance := <[qp := v]> (_gap_conductance s);
     _gap_conductance_dT := _gap_conductance_dT s;
     _gap_thermal_conductivity := _gap_thermal_conductivity s;
     _penetration_info := _penetration_info s;
     warning_log := warning_log s |}.

Definition set_gap_conductance_dT (qp : nat) (v : Real) (s : State) : State :=
  {| _gap_temp := _gap_temp s; _gap_distance := _gap_distance s;
     _radius := _radius s; _r1 := _r1 s; _r2 := _r2 s;
     _has_info := _has_info s;
     _gap_conductance := _gap_conductance s;
     _gap_conductance_dT := <[qp := v]> (_gap_conductance_dT s);
     _gap_thermal_conductivity := _gap_thermal_conductivity s;
     _penetration_info := _penetration_info s;
     warning_log := warning_log s |}.

Definition set_gap_thermal_conductivity (qp : nat) (v : Real) (s : State) : State :=
  {| _gap_temp := _gap_temp s; _gap_distance := _gap_distance s;
     _radius := _radius s; _r1 := _r1 s; _r2 := _r2 s;
     _has_info := _has_info s;
     _gap_conductance := _gap_conductance s;
     _gap_conductance_dT := _gap_conductance_dT s;
     _gap_thermal_conductivity := <[qp := v]> (_gap_thermal_conductivity s);
     _penetration_info := _penetration_info s;
     warning_log := warning_log s |}.

Definition set_penetration_info
    (m : gmap dof_id_type (option PenetrationInfo)) (s : State) : State :=
  {| _gap_temp := _gap_temp s; _gap_distance := _gap_distance s;
     _radius := _radius s; _r1 := _r1 s; _r2 := _r2 s;
     _has_info := _has_info s;
     _gap_conductance := _gap_conductance s;
     _gap_conductance_dT := _gap_conductance_dT s;
     _gap_thermal_conductivity := _gap_thermal_conductivity s;
     _penetration_info := m;
     warning_log := warning_log s |}.

Definition mooseWarning (w : Warning) (s : State) : State :=
  {| _gap_temp := _gap_temp s; _gap_distance := _gap_distance s;
     _radius := _radius s; _r1 := _r1 s; _r2 := _r2 s;
     _has_info := _has_info s;
     _gap_conductance := _gap_conductance s;
     _gap_conductance_dT := _gap_conductance_dT s;
     _gap_thermal_conductivity := _gap_thermal_conductivity s;
     _penetration_info := _penetration_info s;
     warning_log := w :: warning_log s |}.

(** Reading a material property at a point (0 where nothing was stored). *)
Definition prop_at (m : gmap nat Real) (qp : nat) : Real := default 0 (m !! qp).

(** *** Member functions: state passing with [mooseError] *)

Definition M (A : Type) : Type := State -> result (A * State).

Definition ret {A} (a : A) : M A := fun s => Ok (a, s).

Definition bind {A B} (m : M A) (k : A -> M B) : M B :=
  fun s => match m s with
           | Ok (a, s') => k a s'
           | MooseError msg => MooseError msg
           end.

Definition get : M State := fun s => Ok (s, s).

Definition modify (f : State -> State) : M unit := fun s => Ok (tt, f s).

Definition mooseError {A} (msg : string) : M A := fun _ => MooseError msg.

Notation "x <- c1 ;; c2" := (bind c1 (fun x => c2))
  (at level 100, c1 at next level, right associativity).
Notation "c1 ;; c2" := (bind c1 (fun _ => c2))
  (at level 100, right associativity).

(** ** Gap length (static member functions)

    [gapCyl] divides by [r1] and takes the logarithm of [r2 / r1]; [gapSphere]
    divides by [r1] and by [r2].  The definitions are the source's values
    where these are real numbers, which [raw_length_defined] states. *)

Definition gapRect (distance min_gap max_gap : Real) : Real :=
  Std.max min_gap (Std.min distance max_gap).

Definition gapCyl (radius r1 r2 min_denom max_denom : Real) : Real :=
  let denominator := radius * Std.log (r2 / r1) in
  Std.max min_denom (Std.min denominator max_denom).

Definition gapSphere (radius r1 r2 min_denom max_denom : Real) : Real :=
  let denominator := Std.pow2 radius * ((1 / r1) - (1 / r2)) in
  Std.max min_denom (Std.min denominator max_denom).


Definition gapLength (gap_geom : GAP_GEOMETRY)
    (radius r1 r2 min_gap max_gap : Real) : Real :=
  match gap_geom with
  | CYLINDER => gapCyl radius r1 r2 min_gap max_gap
  | SPHERE => gapSphere radius r1 r2 min_gap max_gap
  | PLATE => gapRect (r2 - r1) min_gap max_gap
  end.

(** ** [GapConductance::computeGapRadii]

    The locals of the CYLINDER branch, named as in the source.  They are the
    source's values when the two axis points differ and, for
    [cyl_rad_dot_norm], when the current point is off the axis;
    [computeGapRadii] below uses them only then. *)

Definition cyl_rad_vec (current_point p1 p2 : Point) : Point :=
  let p2p1 := Pt.sub p2 p1 in
  let p1pc := Pt.sub p1 current_point in
  let t := (- (Pt.dot p1pc p2p1)) / Pt.norm_sq p2p1 in
  let p := Pt.add p1 (Pt.scale t p2p1) in
  Pt.sub current_point p.

Definition cyl_rad (current_point p1 p2 : Point) : Real :=
  Pt.norm (cyl_rad_vec current_point p1 p2).

Definition cyl_rad_dot_norm (current_point p1 p2 current_normal : Point) : Real :=
  let rad_vec := cyl_rad_vec current_point p1 p2 in
  let rad := Pt.norm rad_vec in
  let rad_vec := Pt.div rad_vec rad in
  Pt.dot rad_vec current_normal.

(** The locals of the SPHERE branch. *)

Definition sph_normal_dot (current_point p1 current_normal : Point) : Real :=
  let origin_to_curr_point := Pt.sub current_point p1 in
  Pt.dot origin_to_curr_point current_normal.

Definition sph_curr_point_radius (current_point p1 : Point) : Real :=
  let origin_to_curr_point := Pt.sub current_point p1 in
  Pt.norm origin_to_curr_point.

(** [r1], [r2] and [radius] are output references; every path that returns
    assigns all three, so they are the value of the function.

    The CYLINDER branch divides twice.  When the two axis points coincide,
    [p2p1] is the zero vector and [t] is [0 / 0], NaN; when the current point
    is on the axis, [rad_vec] is the zero vector, [rad] is 0 and each
    component of [rad_vec /= rad] is [0 / 0], NaN.  In both cases
    [rad_dot_norm] is NaN in the source, neither of its two comparisons
    holds, and the final [else] raises the error: the two tests below take
    that branch where [R] has no NaN to carry there. *)
Definition computeGapRadii (gap_geometry_type : GAP_GEOMETRY)
    (current_point p1 p2 : Point) (gap_distance : Real) (current_normal : Point)
  : result (Real * Real * Real) :=
  match gap_geometry_type with
  | CYLINDER =>
      let p2p1 := Pt.sub p2 p1 in
      let rad := cyl_rad current_point p1 p2 in
      let rad_dot_norm := cyl_rad_dot_norm current_point p1 p2 current_normal in
      if decide (Pt.norm_sq p2p1 = 0) then
        MooseError "Issue with cylindrical flux calc. normals."
      else if decide (rad = 0) then
        MooseError "Issue with cylindrical flux calc. normals."
      else if decide (rad_dot_norm > 0) then
        let r1 := rad in
        let r2 := rad - gap_distance in
        Ok (r1, r2, r1)
      else if decide (rad_dot_norm < 0) then
        let r1 := rad + gap_distance in
        let r2 := rad in
        Ok (r1, r2, r2)
      else MooseError "Issue with cylindrical flux calc. normals."
  | SPHERE =>
      let normal_dot := sph_normal_dot current_point p1 current_normal in
      let curr_point_radius := sph_curr_point_radius current_point p1 in
      if decide (normal_dot > 0) then
        let r1 := curr_point_radius in
        let r2 := curr_point_radius - gap_distance in
        Ok (r1, r2, r1)
      else if decide (normal_dot < 0) then
        let r1 := curr_point_radius + gap_distance in
        let r2 := curr_point_radius in
        Ok (r1, r2, r2)
      else MooseError "Issue with spherical flux calc. normals."
  | PLATE =>
      let r2 := - gap_distance in
      let r1 := 0 in
      let radius := 0 in
      Ok (r1, r2, radius)
  end.

(** ** Evaluation of a point *)

(** The loop of [computeGapValues]:
    [_gap_temp += slave_side_phi[i][0] * solution(slave_side_dof_indices[i])]
    for [i] from 0 up to the number of indices; [i] counts the indices done.
    An index past the end of [slave_side_phi] (undefined in the source)
    reads 0 here. *)
Fixpoint interpolation_loop (slave_side_phi : list (list Real))
    (solution : dof_id_type -> Real)
    (slave_side_dof_indices : list dof_id_type) (i : nat) (s : State) : State :=
  match slave_side_dof_indices with
  | [] => s
  | d :: rest =>
      interpolation_loop slave_side_phi solution rest (S i)
        (set_gap_temp (_gap_temp s + nth 0 (nth i slave_side_phi []) 0 * solution d) s)
  end.

(** [_penetration_info[id]] on a [std::map]: an absent key is inserted with
    a null pointer. *)
Definition penetration_info_at (id : dof_id_type) : M (option PenetrationInfo) :=
  fun s =>
    match _penetration_info s !! id with
    | Some p => Ok (p, s)
    | None => Ok (None, set_penetration_info (<[id := None]> (_penetration_info s)) s)
    end.

Section Members.

Variable cfg : Config.
Variable ctx : Context.

Definition gapK (s : State) : Real :=
  let gap_conductivity := _gap_conductivity cfg in
  match _gap_conductivity_function cfg with
  | Some f =>
      match _gap_conductivity_function_variable cfg with
      | Some v => gap_conductivity * f (v (_qp ctx)) (_q_point ctx (_qp ctx))
      | None => gap_conductivity * f (_t ctx) (_q_point ctx (_qp ctx))
      end
  | None => gap_conductivity
  end.

(** The quotient is the source's value when the gap length is not 0 (and is
    a real number, see [raw_length_defined]); a zero length gives an infinity
    or NaN in the source. *)
Definition h_conduction : M Real :=
  s <- get ;;
  modify (set_gap_thermal_conductivity (_qp ctx) (gapK s)) ;;
  s <- get ;;
  ret (prop_at (_gap_thermal_conductivity s) (_qp ctx) /
       gapLength (_gap_geometry_type cfg) (_radius s) (_r1 s) (_r2 s)
         (_min_gap cfg) (_max_gap cfg)).

Definition dh_conduction (s : State) : Real := 0.

Definition h_radiation (s : State) : Real :=
  if decide (_emissivity cfg = 0) then 0
  else
    let temp_func :=
      (_temp ctx (_qp ctx) * _temp ctx (_qp ctx) + _gap_temp s * _gap_temp s) *
      (_temp ctx (_qp ctx) + _gap_temp s) in
    _stefan_boltzmann cfg * temp_func / _emissivity cfg.

Definition dh_radiation (s : State) : Real :=
  if decide (_emissivity cfg = 0) then 0
  else
    let temp_func :=
      3 * _temp ctx (_qp ctx) * _temp ctx (_qp ctx) +
      _gap_temp s * (2 * _temp ctx (_qp ctx) + _gap_temp s) in
    _stefan_boltzmann cfg * temp_func / _emissivity cfg.

Definition computeQpConductance : M unit :=
  s <- get ;;
  if _has_info s then
    hc <- h_conduction ;;
    hr <- (s <- get ;; ret (h_radiation s)) ;;
    modify (set_gap_conductance (_qp ctx) (hc + hr)) ;;
    d <- (s <- get ;; ret (dh_conduction s)) ;;
    modify (set_gap_conductance_dT (_qp ctx) d)
  else
    modify (set_gap_conductance (_qp ctx) 0) ;;
    modify (set_gap_conductance_dT (_qp ctx) 0).

(** The first statement of [computeGapValues]: the [if (!_quadrature)] with
    both its branches. *)
Definition resolveGapValues : M unit :=
  if negb (_quadrature cfg) then
    modify (set_has_info true) ;;
    modify (set_gap_temp (_gap_temp_value cfg (_qp ctx))) ;;
    modify (set_gap_distance (_gap_distance_value cfg (_qp ctx)))
  else
    let qnode := getQuadratureNode ctx in
    pinfo <- penetration_info_at (node_id qnode) ;;
    modify (set_gap_temp 0) ;;
    modify (set_gap_distance 88888) ;;
    modify (set_has_info false) ;;
    match pinfo with
    | Some pinfo =>
        modify (set_gap_distance (_distance pinfo)) ;;
        modify (set_has_info true) ;;
        let slave_side := _side pinfo in
        let slave_side_phi := _side_phi pinfo in
        let slave_side_dof_indices := dof_indices ctx slave_side in
        modify (interpolation_loop slave_side_phi (_serialized_solution ctx)
                  slave_side_dof_indices 0)
    | None =>
        if _warnings cfg then
          modify (mooseWarning
                    {| warn_node := node_id qnode;
                       warn_processor := processor_id ctx;
                       warn_coordinate := node_point qnode |})
        else ret tt
    end.

(** Its second statement: the call of [computeGapRadii] on the members. *)
Definition callComputeGapRadii : M unit :=
  s <- get ;;
  let current_point := _q_point ctx (_qp ctx) in
  match computeGapRadii (_gap_geometry_type cfg) current_point (_p1 cfg) (_p2 cfg)
          (_gap_distance s) (_normals ctx (_qp ctx)) with
  | Ok (r1, r2, radius) => modify (set_radii r1 r2 radius)
  | MooseError msg => mooseError msg
  end.

Definition computeGapValues : M unit :=
  resolveGapValues ;;
  callComputeGapRadii.

Definition computeQpProperties : M unit :=
  computeGapValues ;;
  computeQpConductance.

End Members.

(** * The specification's vocabulary *)



(** The distance of the current point from the line through [p1] and [p2],
    the [rad] of the specification: with [v] the point minus [p1] and [a] the
    axis direction [p2 - p1], the point nearest on the line is at distance
    [sqrt (|v|^2 - (v.a)^2 / |a|^2)]. *)
Definition spec_axis_distance (cp p1 p2 : Point) : R :=
  let vx := px cp - px p1 in
  let vy := py cp - py p1 in
  let vz := pz cp - pz p1 in
  let ax := px p2 - px p1 in
  let ay := py p2 - py p1 in
  let az := pz p2 - pz p1 in
  sqrt (vx * vx + vy * vy + vz * vz
        - (vx * ax + vy * ay + vz * az) ^ 2 / (ax * ax + ay * ay + az * az)).

(** The [rad_dot_norm] of the specification: the unit vector from the
    nearest axis point to the current point, times the normal [n].  That
    vector is [v - ((v.a) / |a|^2) a] over the distance. *)
Definition spec_radial_dot (cp p1 p2 n : Point) : R :=
  let vx := px cp - px p1 in
  let vy := py cp - py p1 in
  let vz := pz cp - pz p1 in
  let ax := px p2 - px p1 in
  let ay := py p2 - py p1 in
  let az := pz p2 - pz p1 in
  let c := (vx * ax + vy * ay + vz * az) / (ax * ax + ay * ay + az * az) in
  ((vx - c * ax) * px n + (vy - c * ay) * py n + (vz - c * az) * pz n)
  / spec_axis_distance cp p1 p2.

(** The [curr_radius] of the specification for SPHERE: the length of the
    current point minus the origin. *)
Definition spec_sphere_radius (cp origin : Point) : R :=
  sqrt ((px cp - px origin) * (px cp - px origin) +
        (py cp - py origin) * (py cp - py origin) +
        (pz cp - pz origin) * (pz cp - pz origin)).

(** The [normal_dot] of the specification for SPHERE. *)
Definition spec_sphere_dot (cp origin n : Point) : R :=
  (px cp - px origin) * px n + (py cp - py origin) * py n +
  (pz cp - pz origin) * pz n.

(** The value of the optional scaling function of the specification: the
    function at the coupled variable's value, or else at the current time,
    and at the current point; 1 when no function is configured. *)
Definition spec_scaling (cfg : Config) (ctx : Context) : R :=
  match _gap_conductivity_function cfg with
  | None => 1
  | Some f =>
      f (match _gap_conductivity_function_variable cfg with
         | Some v => v (_qp ctx)
         | None => _t ctx
         end) (_q_point ctx (_qp ctx))
  end.

(** The parameter was given ([isParamValid]). *)
Definition isParamValid {A} (o : option A) : bool :=
  match o with Some _ => true | None => false end.

(** The geometry type of the specification: the user's, and when unset the
    default of the coordinate system. *)
Definition spec_geometry_type (user : option GAP_GEOMETRY)
    (c : CoordinateSystemType) : GAP_GEOMETRY :=
  match user with
  | Some g => g
  | None =>
      match c with
      | COORD_XYZ => PLATE
      | COORD_RZ => CYLINDER
      | COORD_RSPHERICAL => SPHERE
      end
  end.

(** The combinations the specification enumerates as accepted. *)
Definition spec_accepts (g : GAP_GEOMETRY) (c : CoordinateSystemType)
    (params : InputParameters) : bool :=
  match g, c with
  | PLATE, COORD_RSPHERICAL => false
  | PLATE, _ => true
  | CYLINDER, COORD_XYZ =>
      isParamValid (cylinder_axis_point_1 params) &&
      isParamValid (cylinder_axis_point_2 params)
  | CYLINDER, COORD_RZ =>
      negb (isParamValid (cylinder_axis_point_1 params) ||
            isParamValid (cylinder_axis_point_2 params))
  | CYLINDER, COORD_RSPHERICAL => false
  | SPHERE, COORD_RSPHERICAL => negb (isParamValid (sphere_origin params))
  | SPHERE, _ => isParamValid (sphere_origin params)
  end.

(** The points the specification fixes for an accepted combination; [p1]
    and [p2] are the points before resolution. *)
Definition spec_points (g : GAP_GEOMETRY) (c : CoordinateSystemType)
    (params : InputParameters) (p1 p2 : Point) : Point * Point :=
  match g, c with
  | PLATE, _ => (p1, p2)
  | CYLINDER, COORD_RZ => (mkPoint 0 0 0, mkPoint 0 1 0)
  | CYLINDER, _ =>
      (default p1 (cylinder_axis_point_1 params),
       default p2 (cylinder_axis_point_2 params))
  | SPHERE, COORD_RSPHERICAL => (mkPoint 0 0 0, p2)
  | SPHERE, _ => (default p1 (sphere_origin params), p2)
  end.

(** The weighted sum of the specification: over the nodes of the opposing
    element, interpolation weight times the node's current solution value. *)
Definition spec_weighted_sum (weights values : list R) : R :=
  fold_right Rplus 0 (zip_with Rmult weights values).

(** The interpolation weights of a search result: the shape functions at
    the single point they are evaluated at. *)
Definition weights_of (pinfo : PenetrationInfo) : list R :=
  map (fun phi_i => nth 0 phi_i 0) (_side_phi pinfo).

(** The search result for a node: absent and null are both no match. *)
Definition search_result (s : State) (id : dof_id_type) : option PenetrationInfo :=
  match _penetration_info s !! id with
  | Some p => p
  | None => None
  end.

(** The warning of [computeGapValues] for the context's quadrature node. *)
Definition no_gap_value_warning (ctx : Context) : Warning :=
  {| warn_node := node_id (getQuadratureNode ctx);
     warn_processor := processor_id ctx;
     warn_coordinate := node_point (getQuadratureNode ctx) |}.

(** The parameters with [min_gap] given by the user as [v]. *)
Definition with_min_gap (v : Real) (params : InputParameters) : InputParameters :=
  {| gap_geometry_type := gap_geometry_type params;
     cylinder_axis_point_1 := cylinder_axis_point_1 params;
     cylinder_axis_point_2 := cylinder_axis_point_2 params;
     sphere_origin := sphere_origin params;
     emissivity_1 := emissivity_1 params;
     emissivity_2 := emissivity_2 params;
     warnings := warnings params;
     min_gap := v;
     max_gap := max_gap params;
     gap_distance := gap_distance params;
     gap_temp := gap_temp params;
     gap_conductivity := gap_conductivity params;
     gap_conductivity_function := gap_conductivity_function params;
     gap_conductivity_function_variable := gap_conductivity_function_variable params;
     quadrature := quadrature params;
     paired_boundary := paired_boundary params;
     stefan_boltzmann := stefan_boltzmann params |}.

(** * Sample inputs

    A node-based PLATE model in Cartesian coordinates with both emissivities 1,
    a quadrature-based model whose search finds nothing, and the point at
    which they are evaluated. *)

Module Sample.

Definition node_params : InputParameters :=
  {| gap_geometry_type := None;
     cylinder_axis_point_1 := None;
     cylinder_axis_point_2 := None;
     sphere_origin := None;
     emissivity_1 := 1;
     emissivity_2 := 1;
     warnings := false;
     min_gap := 0;
     max_gap := 1000000;
     gap_distance := Some (fun _ => -1);
     gap_temp := Some (fun _ => 0);
     gap_conductivity := 1;
     gap_conductivity_function := None;
     gap_conductivity_function_variable := None;
     quadrature := false;
     paired_boundary := None;
     stefan_boltzmann := 1 |}.

Definition node_cfg : Config :=
  {| _quadrature := false;
     _gap_geometry_type := PLATE;
     _p1 := mkPoint 0 0 0;
     _p2 := mkPoint 0 0 0;
     _gap_distance_value := fun _ => -1;
     _gap_temp_value := fun _ => 0;
     _gap_conductivity := 1;
     _gap_conductivity_function := None;
     _gap_conductivity_function_variable := None;
     _stefan_boltzmann := 1;
     _emissivity := 1 / 1 + 1 / 1 - 1;
     _min_gap := 0;
     _max_gap := 1000000;
     _warnings := false |}.

Definition quad_params : InputParameters :=
  {| gap_geometry_type := None;
     cylinder_axis_point_1 := None;
     cylinder_axis_point_2 := None;
     sphere_origin := None;
     emissivity_1 := 0;
     emissivity_2 := 0;
     warnings := true;
     min_gap := 0;
     max_gap := 1000000;
     gap_distance := None;
     gap_temp := None;
     gap_conductivity := 1;
     gap_conductivity_function := None;
     gap_conductivity_function_variable := None;
     quadrature := true;
     paired_boundary := Some "2";
     stefan_boltzmann := 1 |}.

Definition quad_cfg : Config :=
  {| _quadrature := true;
     _gap_geometry_type := PLATE;
     _p1 := mkPoint 0 0 0;
     _p2 := mkPoint 0 0 0;
     _gap_distance_value := _zero;
     _gap_temp_value := _zero;
     _gap_conductivity := 1;
     _gap_conductivity_function := None;
     _gap_conductivity_function_variable := None;
     _stefan_boltzmann := 1;
     _emissivity := 0;
     _min_gap := 0;
     _max_gap := 1000000;
     _warnings := true |}.

Definition ctx : Context :=
  {| _qp := 0%nat;
     _t := 0;
     _q_point := fun _ => mkPoint 1 0 0;
     _normals := fun _ => mkPoint 1 0 0;
     _temp := fun _ => 1;
     getQuadratureNode := mkNode 7%nat (mkPoint 1 0 0);
     processor_id := 0%nat;
     dof_indices := fun _ => [3; 4]%nat;
     _serialized_solution := fun _ => 2 |}.

Definition pinfo : PenetrationInfo :=
  {| _distance := -1; _side := 5%nat; _side_phi := [[1 / 2]; [1 / 2]] |}.

End Sample.

(** A SPHERE model with both emissivities 1 and the members of a point on
    the inside surface at radius 1 with a gap of width 1. *)

Module SphereSample.

Definition cfg : Config :=
  {| _quadrature := false;
     _gap_geometry_type := SPHERE;
     _p1 := mkPoint 0 0 0;
     _p2 := mkPoint 0 0 0;
     _gap_distance_value := fun _ => -1;
     _gap_temp_value := fun _ => 0;
     _gap_conductivity := 1;
     _gap_conductivity_function := None;
     _gap_conductivity_function_variable := None;
     _stefan_boltzmann := 1;
     _emissivity := 1 / 1 + 1 / 1 - 1;
     _min_gap := 1 / 1000000;
     _max_gap := 1000000;
     _warnings := false |}.


End SphereSample.

(** * Defaults, updates and the loop's accumulator

    The parameter defaults, the record updates that the further properties
    vary an input with, and the running sum of the interpolation loop. *)

(** The defaults declared by [validParams<GapConductance>] and
    [actionParameters]; a parameter declared without a default is unset. *)
Definition validParams : InputParameters :=
  {| gap_geometry_type := None;
     cylinder_axis_point_1 := None;
     cylinder_axis_point_2 := None;
     sphere_origin := None;
     emissivity_1 := 0;
     emissivity_2 := 0;
     warnings := false;
     min_gap := 1 / 1000000;
     max_gap := 1000000;
     gap_distance := None;
     gap_temp := None;
     gap_conductivity := 1;
     gap_conductivity_function := None;
     gap_conductivity_function_variable := None;
     quadrature := false;
     paired_boundary := None;
     stefan_boltzmann := 5669 / 100000000000 |}.

(** The parameters with [gap_distance] and [gap_temp] coupled. *)
Definition with_coupled_gap (d t : VariableValue) (params : InputParameters)
  : InputParameters :=
  {| gap_geometry_type := gap_geometry_type params;
     cylinder_axis_point_1 := cylinder_axis_point_1 params;
     cylinder_axis_point_2 := cylinder_axis_point_2 params;
     sphere_origin := sphere_origin params;
     emissivity_1 := emissivity_1 params;
     emissivity_2 := emissivity_2 params;
     warnings := warnings params;
     min_gap := min_gap params;
     max_gap := max_gap params;
     gap_distance := Some d;
     gap_temp := Some t;
     gap_conductivity := gap_conductivity params;
     gap_conductivity_function := gap_conductivity_function params;
     gap_conductivity_function_variable := gap_conductivity_function_variable params;
     quadrature := quadrature params;
     paired_boundary := paired_boundary params;
     stefan_boltzmann := stefan_boltzmann params |}.

(** The object that the defaults give in node-based mode: what [setup]
    returns for [with_coupled_gap d t validParams] in Cartesian coordinates. *)
Definition default_node_cfg (d t : VariableValue) : Config :=
  {| _quadrature := false;
     _gap_geometry_type := PLATE;
     _p1 := mkPoint 0 0 0;
     _p2 := mkPoint 0 0 0;
     _gap_distance_value := d;
     _gap_temp_value := t;
     _gap_conductivity := 1;
     _gap_conductivity_function := None;
     _gap_conductivity_function_variable := None;
     _stefan_boltzmann := 5669 / 100000000000;
     _emissivity := 0;
     _min_gap := 1 / 1000000;
     _max_gap := 1000000;
     _warnings := false |}.

(** The context with the temperature variable equal to [T] everywhere. *)
Definition with_temp (T : Real) (ctx : Context) : Context :=
  {| _qp := _qp ctx;
     _t := _t ctx;
     _q_point := _q_point ctx;
     _normals := _normals ctx;
     _temp := fun _ => T;
     getQuadratureNode := getQuadratureNode ctx;
     processor_id := processor_id ctx;
     dof_indices := dof_indices ctx;
     _serialized_solution := _serialized_solution ctx |}.

(** The value of [_gap_temp] through [interpolation_loop], started at [acc]. *)
Fixpoint loop_temp (slave_side_phi : list (list Real))
    (solution : dof_id_type -> Real)
    (slave_side_dof_indices : list dof_id_type) (i : nat) (acc : Real) : Real :=
  match slave_side_dof_indices with
  | [] => acc
  | d :: rest =>
      loop_temp slave_side_phi solution rest (S i)
        (acc + nth 0 (nth i slave_side_phi []) 0 * solution d)
  end.

(** The checks of the constructor's body, as a condition on the parameters. *)
Definition mode_parameters_ok (params : InputParameters) : bool :=
  if quadrature params then isParamValid (paired_boundary params)
  else isParamValid (gap_distance params) && isParamValid (gap_temp params).

(** All four range checks of [checkRanges]. *)
Definition ranges_ok (params : InputParameters) : bool :=
  range_holds emissivity_1_range (emissivity_1 params) &&
  range_holds emissivity_2_range (emissivity_2 params) &&
  range_holds min_gap_range (min_gap params) &&
  range_holds max_gap_range (max_gap params).

(** The states that differ from [s] in the members a point's evaluation
    assigns before it reads them. *)
Definition with_point_members (gap_temp gap_distance radius r1 r2 : Real)
    (has_info : bool) (s : State) : State :=
  {| _gap_temp := gap_temp; _gap_distance := gap_distance;
     _radius := radius; _r1 := r1; _r2 := r2;
     _has_info := has_info;
     _gap_conductance := _gap_conductance s;
     _gap_conductance_dT := _gap_conductance_dT s;
     _gap_thermal_conductivity := _gap_thermal_conductivity s;
     _penetration_info := _penetration_info s;
     warning_log := warning_log s |}.

(** * Properties *)

(** ** The C++ minimum and maximum *)

Module StdFacts.

Lemma max_ge_l a b : a <= Std.max a b.
Proof. unfold Std.max. case_decide; lra. Qed.

Lemma max_ge_r a b : b <= Std.max a b.
Proof. unfold Std.max. case_decide; lra. Qed.

Lemma min_le_l a b : Std.min a b <= a.
Proof. unfold Std.min. case_decide; lra. Qed.

Lemma min_le_r a b : Std.min a b <= b.
Proof. unfold Std.min. case_decide; lra. Qed.

Lemma max_cases a b : (a < b /\ Std.max a b = b) \/ (b <= a /\ Std.max a b = a).
Proof. unfold Std.max. case_decide; [left | right]; split; lra. Qed.

Lemma min_cases a b : (b < a /\ Std.min a b = b) \/ (a <= b /\ Std.min a b = a).
Proof. unfold Std.min. case_decide; [left | right]; split; lra. Qed.

End StdFacts.

(** ** Running member functions *)

Ltac run :=
  unfold computeQpProperties, computeGapValues, callComputeGapRadii,
    resolveGapValues, computeQpConductance, h_conduction, penetration_info_at,
    bind, get, modify, ret, mooseError;
  cbn [_has_info _gap_temp _gap_distance _radius _r1 _r2 _gap_conductance
       _gap_conductance_dT _gap_thermal_conductivity _penetration_info warning_log
       set_gap_temp set_gap_distance set_has_info set_radii set_gap_conductance
       set_gap_conductance_dT set_gap_thermal_conductivity set_penetration_info
       mooseWarning negb].

Lemma prop_at_insert (m : gmap nat Real) (qp : nat) (v : Real) :
  prop_at (<[qp := v]> m) qp = v.
Proof. unfold prop_at. now rewrite lookup_insert_eq. Qed.





(** What [computeQpConductance] leaves behind, branch by branch. *)

Lemma computeQpConductance_contact cfg ctx s :
  _has_info s = true ->
  computeQpConductance cfg ctx s =
    let qp := _qp ctx in
    let s1 := set_gap_thermal_conductivity qp (gapK cfg ctx s) s in
    let hc := gapK cfg ctx s /
              gapLength (_gap_geometry_type cfg) (_radius s) (_r1 s) (_r2 s)
                (_min_gap cfg) (_max_gap cfg) in
    Ok (tt, set_gap_conductance_dT qp (dh_conduction s1)
              (set_gap_conductance qp (hc + h_radiation cfg ctx s1) s1)).
Proof.
  intros H. run. rewrite H. run. now rewrite prop_at_insert.
Qed.

Lemma computeQpConductance_no_contact cfg ctx s :
  _has_info s = false ->
  computeQpConductance cfg ctx s =
    Ok (tt, set_gap_conductance_dT (_qp ctx) 0 (set_gap_conductance (_qp ctx) 0 s)).
Proof.
  intros H. run. now rewrite H.
Qed.

Lemma h_radiation_frame cfg ctx qp v s :
  h_radiation cfg ctx (set_gap_thermal_conductivity qp v s) = h_radiation cfg ctx s.
Proof. reflexivity. Qed.

Ltac decide_reals :=
  repeat match goal with
    | |- context [bool_decide ?P] =>
        first [ rewrite (bool_decide_eq_true_2 P) by (try red; cbn; lra)
              | rewrite (bool_decide_eq_false_2 P) by (try red; cbn; lra) ]
    | |- context [decide ?P] =>
        first [ rewrite (decide_True (P := P)) by (cbn; lra)
              | rewrite (decide_False (P := P)) by (cbn; lra) ]
    end.

Lemma setup_node_params : setup Sample.node_params COORD_XYZ = Ok Sample.node_cfg.
Proof.
  unfold setup, checkRanges, rangeCheck, emissivity_1_range, emissivity_2_range,
    min_gap_range, max_gap_range, range_holds, Sample.node_params.
  cbn [emissivity_1 emissivity_2 min_gap max_gap].
  decide_reals. cbn [andb bind_result].
  unfold GapConductance_ctor. cbn. decide_reals. reflexivity.
Qed.

Lemma setup_quad_params : setup Sample.quad_params COORD_XYZ = Ok Sample.quad_cfg.
Proof.
  unfold setup, checkRanges, rangeCheck, emissivity_1_range, emissivity_2_range,
    min_gap_range, max_gap_range, range_holds, Sample.quad_params.
  cbn [emissivity_1 emissivity_2 min_gap max_gap].
  decide_reals. cbn [andb bind_result].
  unfold GapConductance_ctor. cbn. decide_reals. reflexivity.
Qed.

(** ** The clamp, [gapRect] *)

Lemma gapRect_ge_min L mn mx : mn <= gapRect L mn mx.
Proof. apply StdFacts.max_ge_l. Qed.

Lemma gapRect_le_max L mn mx : mn <= mx -> gapRect L mn mx <= mx.
Proof.
  intros H. unfold gapRect.
  destruct (StdFacts.max_cases mn (Std.min L mx)) as [[_ ->] | [_ ->]];
    [apply StdFacts.min_le_r | exact H].
Qed.

Lemma gapRect_inverted L mn mx : mx < mn -> gapRect L mn mx = mn.
Proof.
  intros H. unfold gapRect.
  destruct (StdFacts.max_cases mn (Std.min L mx)) as [[Hlt _] | [_ ->]]; [| reflexivity].
  pose proof (StdFacts.min_le_r L mx). lra.
Qed.

Lemma gapRect_fixed x mn mx : mn <= x -> x <= Std.max mn mx -> gapRect x mn mx = x.
Proof.
  unfold gapRect, Std.max, Std.min. intros H1 H2.
  repeat case_decide; lra.
Qed.

(** The gap lengths of the specification's PLATE example, with
    [min_gap = 1e-6] and [max_gap = 1e6]. *)
Example gapRect_plate_example :
  gapRect (1 / 100) (1 / 1000000) 1000000 = 1 / 100 /\
  gapRect (-5) (1 / 1000000) 1000000 = 1 / 1000000.
Proof.
  unfold gapRect, Std.max, Std.min. split; repeat case_decide; lra.
Qed.

(** C7, as stated, fails: with [min_gap = 2] above [max_gap = 1] the clamp of
    0 is 2, which is not at most [max_gap]. *)
Lemma gapRect_range_counterexample :
  ~ (forall L min_gap max_gap : Real,
       min_gap <= gapRect L min_gap max_gap <= max_gap).
Proof.
  intros H. specialize (H 0 2 1).
  rewrite (gapRect_inverted 0 2 1) in H by lra. lra.
Qed.

(** C7 (amended): for every raw length and all bounds, [gapRect] is at least
    [min_gap] and is idempotent; it is at most [max_gap] when
    [min_gap <= max_gap], and it is [min_gap] when [max_gap < min_gap]. *)
Theorem gapRect_clamp (L min_gap max_gap : Real) :
  min_gap <= gapRect L min_gap max_gap /\
  (min_gap <= max_gap -> gapRect L min_gap max_gap <= max_gap) /\
  (max_gap < min_gap -> gapRect L min_gap max_gap = min_gap) /\
  gapRect (gapRect L min_gap max_gap) min_gap max_gap = gapRect L min_gap max_gap.
Proof.
  split; [apply gapRect_ge_min |].
  split; [apply gapRect_le_max |].
  split; [apply gapRect_inverted |].
  apply gapRect_fixed; [apply gapRect_ge_min |].
  unfold gapRect.
  destruct (StdFacts.max_cases min_gap (Std.min L max_gap)) as [[_ ->] | [_ ->]].
  - pose proof (StdFacts.min_le_r L max_gap). pose proof (StdFacts.max_ge_r min_gap max_gap). lra.
  - apply StdFacts.max_ge_l.
Qed.

Lemma gapRect_clamp_witness :
  1 <= 2 /\ 1 <= gapRect 5 1 2 <= 2 /\ gapRect (gapRect 5 1 2) 1 2 = gapRect 5 1 2.
Proof.
  destruct (gapRect_clamp 5 1 2) as (Hlo & Hhi & _ & Hidem).
  split; [lra |]. split; [split; [exact Hlo | apply Hhi; lra] | exact Hidem].
Defined.

(** ** No contact *)

(** C2: at a point whose gap values report no contact, the conductance and
    its derivative are both stored as 0, whatever the geometry type and the
    temperatures. *)
Theorem no_contact_zero (cfg : Config) (ctx : Context) (s : State)
    (Hinfo : _has_info s = false) :
  exists s',
    computeQpConductance cfg ctx s = Ok (tt, s') /\
    _gap_conductance s' !! _qp ctx = Some 0 /\
    _gap_conductance_dT s' !! _qp ctx = Some 0.
Proof.
  rewrite computeQpConductance_no_contact by exact Hinfo.
  eexists; split; [reflexivity |].
  split; cbn; apply lookup_insert_eq.
Qed.

Lemma no_contact_zero_witness :
  exists s',
    computeQpConductance Sample.node_cfg Sample.ctx (initial_state ∅) = Ok (tt, s') /\
    _gap_conductance s' !! _qp Sample.ctx = Some 0 /\
    _gap_conductance_dT s' !! _qp Sample.ctx = Some 0.
Proof.
  apply (no_contact_zero Sample.node_cfg Sample.ctx (initial_state ∅)).
  reflexivity.
Defined.

(** The same through [computeQpProperties]: when [computeGapValues] returns
    with no contact, the evaluation of the point returns and stores 0 twice. *)
Lemma computeQpProperties_no_contact cfg ctx s0 s1 :
  computeGapValues cfg ctx s0 = Ok (tt, s1) ->
  _has_info s1 = false ->
  exists s2,
    computeQpProperties cfg ctx s0 = Ok (tt, s2) /\
    _gap_conductance s2 !! _qp ctx = Some 0 /\
    _gap_conductance_dT s2 !! _qp ctx = Some 0.
Proof.
  intros Hgap Hinfo.
  unfold computeQpProperties, bind. rewrite Hgap.
  rewrite computeQpConductance_no_contact by exact Hinfo.
  eexists; split; [reflexivity |].
  split; cbn; apply lookup_insert_eq.
Qed.

(** ** The stored gap conductivity *)

Lemma gapK_scaling cfg ctx s :
  gapK cfg ctx s = _gap_conductivity cfg * spec_scaling cfg ctx.
Proof.
  unfold gapK, spec_scaling.
  destruct (_gap_conductivity_function cfg) as [f |];
    [destruct (_gap_conductivity_function_variable cfg) |]; lra.
Qed.

(** C10: [computeQpConductance] always returns; it stores the conductance
    and the derivative at the point in both cases (as 0 with no contact), and
    it stores the gap thermal conductivity, as [gapK], the base conductivity
    times the scaling value, exactly when there is contact: with no contact
    that property is left as it was. *)
Theorem gap_thermal_conductivity_frame (cfg : Config) (ctx : Context) (s : State) :
  gapK cfg ctx s = _gap_conductivity cfg * spec_scaling cfg ctx /\
  exists s',
    computeQpConductance cfg ctx s = Ok (tt, s') /\
    _gap_thermal_conductivity s' =
      (if _has_info s
       then <[_qp ctx := gapK cfg ctx s]> (_gap_thermal_conductivity s)
       else _gap_thermal_conductivity s) /\
    is_Some (_gap_conductance s' !! _qp ctx) /\
    is_Some (_gap_conductance_dT s' !! _qp ctx) /\
    (if _has_info s then True
     else _gap_conductance s' = <[_qp ctx := 0]> (_gap_conductance s) /\
          _gap_conductance_dT s' = <[_qp ctx := 0]> (_gap_conductance_dT s)).
Proof.
  split; [apply gapK_scaling |].
  destruct (_has_info s) eqn:Hinfo.
  - rewrite computeQpConductance_contact by exact Hinfo.
    eexists; split; [reflexivity |]. cbn.
    repeat split; rewrite lookup_insert_eq; eauto.
  - rewrite computeQpConductance_no_contact by exact Hinfo.
    eexists; split; [reflexivity |]. cbn.
    repeat split; rewrite ?lookup_insert_eq; eauto.
Qed.

(** ** Conductance and its derivative at a point with contact *)

Lemma computeQpConductance_derivative cfg ctx s :
  _has_info s = true ->
  exists s',
    computeQpConductance cfg ctx s = Ok (tt, s') /\
    _gap_conductance_dT s' !! _qp ctx = Some 0.
Proof.
  intros Hinfo. rewrite computeQpConductance_contact by exact Hinfo.
  eexists; split; [reflexivity |]. cbn. apply lookup_insert_eq.
Qed.

Lemma computeGapValues_node_sample :
  computeGapValues Sample.node_cfg Sample.ctx (initial_state ∅) =
    Ok (tt, set_radii 0 (- -1) 0
              (set_gap_distance (-1) (set_gap_temp 0 (set_has_info true
                 (initial_state ∅))))).
Proof. reflexivity. Qed.

(** C1 at a failing input.  The node-based sample model (set up from
    [Sample.node_params]: both emissivities 1, so [Fe = 1]; sigma 1) at a point
    with [T = 1] and [Tg = 0] has contact, and there
    [dh_conduction + dh_radiation = 3], yet the derivative that
    [computeQpProperties] stores is 0: [computeQpConductance] assigns
    [dh_conduction()] alone. *)
Theorem derivative_omits_radiation :
  setup Sample.node_params COORD_XYZ = Ok Sample.node_cfg /\
  exists s',
    computeQpProperties Sample.node_cfg Sample.ctx (initial_state ∅) = Ok (tt, s') /\
    _has_info s' = true /\
    _emissivity Sample.node_cfg <> 0 /\
    dh_conduction s' + dh_radiation Sample.node_cfg Sample.ctx s' = 3 /\
    _gap_conductance_dT s' !! _qp Sample.ctx = Some 0.
Proof.
  split; [apply setup_node_params |].
  unfold computeQpProperties, bind. rewrite computeGapValues_node_sample.
  rewrite computeQpConductance_contact by reflexivity.
  eexists; split; [reflexivity |].
  split; [reflexivity |].
  split; [cbn; lra |].
  split; [| cbn; apply lookup_insert_eq].
  unfold dh_conduction, dh_radiation. cbn.
  decide_reals. lra.
Qed.





(** ** The radiation term *)

Lemma rangeCheck_ok name e v : rangeCheck name e v = Ok tt <-> range_holds e v = true.
Proof.
  unfold rangeCheck. destruct (range_holds e v); split; congruence.
Qed.

Lemma unit_range_holds v : range_holds (AND (GE 0) (LE 1)) v = true <-> 0 <= v <= 1.
Proof.
  cbn. rewrite andb_true_iff, !bool_decide_eq_true. split; intros [? ?]; split; lra.
Qed.

Lemma nonneg_range_holds v : range_holds (GE 0) v = true <-> 0 <= v.
Proof. cbn. rewrite bool_decide_eq_true. split; lra. Qed.

(** What a successful [setup] tells about the parameters and the object. *)
Lemma setup_ok params coord_sys cfg :
  setup params coord_sys = Ok cfg ->
  0 <= emissivity_1 params <= 1 /\
  0 <= emissivity_2 params <= 1 /\
  0 <= min_gap params /\
  0 <= max_gap params /\
  _emissivity cfg =
    (if bool_decide (emissivity_1 params <> 0) && bool_decide (emissivity_2 params <> 0)
     then 1 / emissivity_1 params + 1 / emissivity_2 params - 1
     else 0) /\
  _stefan_boltzmann cfg = stefan_boltzmann params /\
  _min_gap cfg = min_gap params /\
  _max_gap cfg = max_gap params.
Proof.
  unfold setup, checkRanges.
  destruct (rangeCheck "emissivity_1" _ _) as [[] |] eqn:He1; [| discriminate].
  destruct (rangeCheck "emissivity_2" _ _) as [[] |] eqn:He2; [| discriminate].
  destruct (rangeCheck "min_gap" _ _) as [[] |] eqn:Hmn; [| discriminate].
  destruct (rangeCheck "max_gap" _ _) as [[] |] eqn:Hmx; [| discriminate].
  apply rangeCheck_ok in He1, He2, Hmn, Hmx.
  apply unit_range_holds in He1, He2. apply nonneg_range_holds in Hmn, Hmx.
  cbn [bind_result].
  destruct (GapConductance_ctor params) as [cfg0 |] eqn:Hctor; [| discriminate].
  cbn [bind_result]. unfold initialSetup.
  destruct (setGapGeometryParameters _ _ _ _ _) as [[[g q1] q2] |]; [| discriminate].
  cbn [bind_result]. intros [= <-]. cbn.
  assert (Hcfg0 :
    _emissivity cfg0 =
      (if bool_decide (emissivity_1 params <> 0) && bool_decide (emissivity_2 params <> 0)
       then 1 / emissivity_1 params + 1 / emissivity_2 params - 1
       else 0) /\
    _stefan_boltzmann cfg0 = stefan_boltzmann params /\
    _min_gap cfg0 = min_gap params /\
    _max_gap cfg0 = max_gap params).
  { revert Hctor. unfold GapConductance_ctor.
    destruct (quadrature params);
      [destruct (paired_boundary params)
      | destruct (gap_distance params); [destruct (gap_temp params) |]];
      try discriminate; intros [= <-]; cbn; auto. }
  tauto.
Qed.

Lemma inv_unit_ge_1 e : 0 <= e <= 1 -> e <> 0 -> 1 <= 1 / e.
Proof.
  intros [H0 H1] Hne.
  assert (Hpos : 0 < e) by lra.
  pose proof (Rinv_0_lt_compat e Hpos) as Hinv.
  pose proof (Rinv_r e Hne) as Hr.
  unfold Rdiv. nra.
Qed.

(** C3: for an object that was set up (so both emissivities passed their
    range check), if either emissivity parameter is 0 then [Fe = 0] and both
    [h_radiation] and [dh_radiation] are 0 whatever the temperatures; and
    otherwise [Fe = 1/e1 + 1/e2 - 1], which is not 0, and [h_radiation] is
    [sigma * (T^2 + Tg^2) * (T + Tg) / Fe]. *)
Theorem radiation_term (params : InputParameters) (coord_sys : CoordinateSystemType)
    (cfg : Config) (ctx : Context) (s : State)
    (Hsetup : setup params coord_sys = Ok cfg) :
  let e1 := emissivity_1 params in
  let e2 := emissivity_2 params in
  let T := _temp ctx (_qp ctx) in
  let Tg := _gap_temp s in
  let sigma := _stefan_boltzmann cfg in
  let Fe := _emissivity cfg in
  (e1 = 0 \/ e2 = 0 ->
     Fe = 0 /\ h_radiation cfg ctx s = 0 /\ dh_radiation cfg ctx s = 0) /\
  (e1 <> 0 /\ e2 <> 0 ->
     Fe = 1 / e1 + 1 / e2 - 1 /\ Fe <> 0 /\
     h_radiation cfg ctx s = sigma * (T ^ 2 + Tg ^ 2) * (T + Tg) / Fe).
Proof.
  intros e1 e2 T Tg sigma Fe.
  destruct (setup_ok _ _ _ Hsetup) as (He1 & He2 & _ & _ & HFe & _).
  fold e1 e2 Fe in He1, He2, HFe.
  split.
  - intros Hzero.
    assert (HFe0 : Fe = 0).
    { rewrite HFe. destruct Hzero as [Hz | Hz].
      - rewrite (bool_decide_eq_false_2 (e1 <> 0)) by tauto. reflexivity.
      - rewrite (bool_decide_eq_false_2 (e2 <> 0)) by tauto.
        now rewrite andb_false_r. }
    split; [exact HFe0 |].
    unfold h_radiation, dh_radiation.
    rewrite !decide_True by exact HFe0. now split.
  - intros [Hn1 Hn2].
    assert (HFeq : Fe = 1 / e1 + 1 / e2 - 1).
    { rewrite HFe. now rewrite !bool_decide_eq_true_2. }
    assert (HFne : Fe <> 0).
    { pose proof (inv_unit_ge_1 e1 He1 Hn1). pose proof (inv_unit_ge_1 e2 He2 Hn2). lra. }
    split; [exact HFeq |]. split; [exact HFne |].
    unfold h_radiation. fold Fe T Tg sigma.
    rewrite decide_False by exact HFne. cbn zeta.
    unfold Rdiv. ring.
Qed.

Lemma radiation_term_witness :
  (emissivity_1 Sample.node_params <> 0 /\ emissivity_2 Sample.node_params <> 0 /\
   _emissivity Sample.node_cfg = 1 / 1 + 1 / 1 - 1 /\
   h_radiation Sample.node_cfg Sample.ctx (initial_state ∅) =
     1 * (1 ^ 2 + 0 ^ 2) * (1 + 0) / _emissivity Sample.node_cfg) /\
  (emissivity_1 Sample.quad_params = 0 /\
   _emissivity Sample.quad_cfg = 0 /\
   h_radiation Sample.quad_cfg Sample.ctx (initial_state ∅) = 0 /\
   dh_radiation Sample.quad_cfg Sample.ctx (initial_state ∅) = 0).
Proof.
  split.
  - pose proof (radiation_term Sample.node_params COORD_XYZ Sample.node_cfg Sample.ctx
                  (initial_state ∅) setup_node_params) as [_ H].
    assert (Hne : emissivity_1 Sample.node_params <> 0 /\
                  emissivity_2 Sample.node_params <> 0) by (cbn; lra).
    destruct (H Hne) as (HFe & _ & Hh).
    destruct Hne as [H1 H2].
    split; [exact H1 |]. split; [exact H2 |]. split; [exact HFe | exact Hh].
  - pose proof (radiation_term Sample.quad_params COORD_XYZ Sample.quad_cfg Sample.ctx
                  (initial_state ∅) setup_quad_params) as [H _].
    split; [reflexivity |]. apply H. left. reflexivity.
Defined.

(** ** Geometry-parameter resolution *)

(** C4: [setGapGeometryParameters] returns exactly on the combinations the
    specification enumerates and is a fatal error on all others; the type it
    returns is the user's or, when unset, the default of the coordinate system
    (Cartesian PLATE, axisymmetric CYLINDER, spherical SPHERE), and the points
    are the supplied axis or origin, the fixed axis through (0,0,0) and
    (0,1,0), or the fixed origin (0,0,0). *)
Theorem geometry_resolution (params : InputParameters) (c : CoordinateSystemType)
    (g0 : GAP_GEOMETRY) (p1 p2 : Point) :
  let g := spec_geometry_type (gap_geometry_type params) c in
  match setGapGeometryParameters params c g0 p1 p2 with
  | Ok (g', q1, q2) =>
      spec_accepts g c params = true /\ g' = g /\
      (q1, q2) = spec_points g c params p1 p2
  | MooseError _ => spec_accepts g c params = false
  end.
Proof.
  unfold setGapGeometryParameters, spec_geometry_type, spec_accepts, spec_points.
  destruct (gap_geometry_type params) as [[] |], c;
    destruct (cylinder_axis_point_1 params), (cylinder_axis_point_2 params),
      (sphere_origin params); cbn; auto.
Qed.

(** The cases of C4 one by one, on [is_ok]. *)
Lemma setGapGeometryParameters_is_ok params c g0 p1 p2 :
  is_ok (setGapGeometryParameters params c g0 p1 p2) =
    spec_accepts (spec_geometry_type (gap_geometry_type params) c) c params.
Proof.
  unfold setGapGeometryParameters, spec_geometry_type, spec_accepts.
  destruct (gap_geometry_type params) as [[] |], c;
    destruct (cylinder_axis_point_1 params), (cylinder_axis_point_2 params),
      (sphere_origin params); reflexivity.
Qed.

(** ** Radii *)

Lemma norm_sq_sub_coordinates p2 p1 :
  Pt.norm_sq (Pt.sub p2 p1) =
    (px p2 - px p1) * (px p2 - px p1) + (py p2 - py p1) * (py p2 - py p1) +
    (pz p2 - pz p1) * (pz p2 - pz p1).
Proof. reflexivity. Qed.

Lemma distinct_axis_points p1 p2 : p1 <> p2 <-> Pt.norm_sq (Pt.sub p2 p1) <> 0.
Proof.
  rewrite norm_sq_sub_coordinates. split.
  - intros Hne Hz. apply Hne. destruct p1 as [x1 y1 z1], p2 as [x2 y2 z2].
    cbn in Hz.
    pose proof (Rle_0_sqr (x2 - x1)) as Hx. pose proof (Rle_0_sqr (y2 - y1)) as Hy.
    pose proof (Rle_0_sqr (z2 - z1)) as Hzz. unfold Rsqr in Hx, Hy, Hzz.
    assert (Ex : x2 - x1 = 0) by (apply Rsqr_0_uniq; unfold Rsqr; lra).
    assert (Ey : y2 - y1 = 0) by (apply Rsqr_0_uniq; unfold Rsqr; lra).
    assert (Ez : z2 - z1 = 0) by (apply Rsqr_0_uniq; unfold Rsqr; lra).
    f_equal; lra.
  - intros Hnz ->. apply Hnz. ring.
Qed.

Lemma cyl_rad_spec cp p1 p2 :
  p1 <> p2 -> cyl_rad cp p1 p2 = spec_axis_distance cp p1 p2.
Proof.
  intros Hne. apply distinct_axis_points in Hne.
  rewrite norm_sq_sub_coordinates in Hne.
  unfold cyl_rad, spec_axis_distance, Pt.norm. f_equal.
  unfold cyl_rad_vec, Pt.norm_sq, Pt.dot, Pt.sub, Pt.add, Pt.scale. cbn.
  field. exact Hne.
Qed.

Lemma cyl_rad_dot_norm_spec cp p1 p2 n :
  p1 <> p2 -> spec_axis_distance cp p1 p2 <> 0 ->
  cyl_rad_dot_norm cp p1 p2 n = spec_radial_dot cp p1 p2 n.
Proof.
  intros Hne Hoff. pose proof (cyl_rad_spec cp p1 p2 Hne) as Hrad.
  apply distinct_axis_points in Hne. rewrite norm_sq_sub_coordinates in Hne.
  unfold cyl_rad_dot_norm, spec_radial_dot.
  fold (cyl_rad cp p1 p2). rewrite Hrad.
  set (D := spec_axis_distance cp p1 p2) in *.
  unfold cyl_rad_vec, Pt.norm_sq, Pt.dot, Pt.div, Pt.sub, Pt.add, Pt.scale. cbn.
  field. split; assumption.
Qed.

Lemma sph_radius_spec cp p1 : sph_curr_point_radius cp p1 = spec_sphere_radius cp p1.
Proof. reflexivity. Qed.

Lemma sph_normal_dot_spec cp p1 n : sph_normal_dot cp p1 n = spec_sphere_dot cp p1 n.
Proof. reflexivity. Qed.

Lemma computeGapRadii_cylinder cp p1 p2 gd n :
  p1 <> p2 -> spec_axis_distance cp p1 p2 <> 0 ->
  let rad := spec_axis_distance cp p1 p2 in
  let d := spec_radial_dot cp p1 p2 n in
  (d = 0 -> computeGapRadii CYLINDER cp p1 p2 gd n =
            MooseError "Issue with cylindrical flux calc. normals.") /\
  (d > 0 -> computeGapRadii CYLINDER cp p1 p2 gd n = Ok (rad, rad - gd, rad)) /\
  (d < 0 -> computeGapRadii CYLINDER cp p1 p2 gd n = Ok (rad + gd, rad, rad)).
Proof.
  intros Hne Hoff rad d. unfold computeGapRadii.
  rewrite (cyl_rad_dot_norm_spec cp p1 p2 n Hne Hoff), (cyl_rad_spec cp p1 p2 Hne).
  fold rad d.
  rewrite (decide_False (P := Pt.norm_sq (Pt.sub p2 p1) = 0))
    by (now apply distinct_axis_points).
  rewrite (decide_False (P := rad = 0)) by exact Hoff.
  repeat split; intros Hd; repeat case_decide; (reflexivity || lra).
Qed.

Lemma computeGapRadii_cylinder_degenerate cp p1 p2 gd n :
  p1 = p2 \/ cyl_rad cp p1 p2 = 0 ->
  computeGapRadii CYLINDER cp p1 p2 gd n =
    MooseError "Issue with cylindrical flux calc. normals.".
Proof.
  intros Hdeg. unfold computeGapRadii.
  destruct (decide (Pt.norm_sq (Pt.sub p2 p1) = 0)) as [Hz | Hnz]; [reflexivity |].
  destruct Hdeg as [-> | Hrad].
  - exfalso. apply Hnz. rewrite norm_sq_sub_coordinates. ring.
  - now rewrite decide_True.
Qed.

Lemma computeGapRadii_sphere cp p1 p2 gd n :
  let rad := spec_sphere_radius cp p1 in
  let d := spec_sphere_dot cp p1 n in
  (d = 0 -> computeGapRadii SPHERE cp p1 p2 gd n =
            MooseError "Issue with spherical flux calc. normals.") /\
  (d > 0 -> computeGapRadii SPHERE cp p1 p2 gd n = Ok (rad, rad - gd, rad)) /\
  (d < 0 -> computeGapRadii SPHERE cp p1 p2 gd n = Ok (rad + gd, rad, rad)).
Proof.
  intros rad d. unfold computeGapRadii.
  rewrite sph_normal_dot_spec, sph_radius_spec. fold rad d.
  repeat split; intros Hd; repeat case_decide; (reflexivity || lra).
Qed.

(** The radial dot product does not involve the gap distance: whether
    [computeGapRadii] returns is a matter of the point, the geometry and the
    normal alone. *)
Lemma computeGapRadii_is_ok_distance g cp p1 p2 gd gd' n :
  is_ok (computeGapRadii g cp p1 p2 gd n) = is_ok (computeGapRadii g cp p1 p2 gd' n).
Proof.
  destruct g; unfold computeGapRadii; repeat case_decide; reflexivity.
Qed.

(** C5: in [computeGapRadii], for CYLINDER with an axis through two distinct
    points and a current point off the axis, where [rad] is the distance of
    the point from the axis and [rad_dot_norm] the unit radial vector times
    the normal, and for SPHERE, where [rad] is the distance of the point from
    the origin and [normal_dot] the point minus the origin times the normal:
    a dot product that is exactly 0 is a fatal error and no radii are
    produced; a positive one gives [r1 = rad], [r2 = rad - gap_distance],
    [radius = r1]; a negative one gives [r1 = rad + gap_distance],
    [r2 = rad], [radius = r2].  With coinciding axis points the CYLINDER
    dot product is not a number and the call is the same fatal error. *)
Theorem radii_by_normal (cp p1 p2 n : Point) (gd : Real) :
  (p1 <> p2 -> spec_axis_distance cp p1 p2 <> 0 ->
   let rad := spec_axis_distance cp p1 p2 in
   let rad_dot_norm := spec_radial_dot cp p1 p2 n in
   (rad_dot_norm = 0 ->
      exists msg, computeGapRadii CYLINDER cp p1 p2 gd n = MooseError msg) /\
   (rad_dot_norm > 0 ->
      computeGapRadii CYLINDER cp p1 p2 gd n = Ok (rad, rad - gd, rad)) /\
   (rad_dot_norm < 0 ->
      computeGapRadii CYLINDER cp p1 p2 gd n = Ok (rad + gd, rad, rad))) /\
  (p1 = p2 -> exists msg, computeGapRadii CYLINDER cp p1 p2 gd n = MooseError msg) /\
  (let rad := spec_sphere_radius cp p1 in
   let normal_dot := spec_sphere_dot cp p1 n in
   (normal_dot = 0 ->
      exists msg, computeGapRadii SPHERE cp p1 p2 gd n = MooseError msg) /\
   (normal_dot > 0 ->
      computeGapRadii SPHERE cp p1 p2 gd n = Ok (rad, rad - gd, rad)) /\
   (normal_dot < 0 ->
      computeGapRadii SPHERE cp p1 p2 gd n = Ok (rad + gd, rad, rad))).
Proof.
  split; [| split]; cbn zeta.
  - intros Hne Hoff.
    destruct (computeGapRadii_cylinder cp p1 p2 gd n Hne Hoff) as (H0 & Hpos & Hneg).
    repeat split; [eauto | exact Hpos | exact Hneg].
  - intros Heq. eexists. apply computeGapRadii_cylinder_degenerate. now left.
  - destruct (computeGapRadii_sphere cp p1 p2 gd n) as (H0 & Hpos & Hneg).
    repeat split; [eauto | exact Hpos | exact Hneg].
Qed.

Lemma sqrt_25 : sqrt 25 = 5.
Proof. replace 25 with (5 * 5) by ring. apply sqrt_square. lra. Qed.

Lemma sample_axis_distance :
  spec_axis_distance (mkPoint 3 5 4) (mkPoint 0 0 0) (mkPoint 0 1 0) = 5.
Proof.
  unfold spec_axis_distance. cbn [px py pz]. rewrite <- sqrt_25. f_equal. field.
Qed.

Lemma sample_radial_dot :
  spec_radial_dot (mkPoint 3 5 4) (mkPoint 0 0 0) (mkPoint 0 1 0) (mkPoint 1 0 0) = 3 / 5.
Proof.
  unfold spec_radial_dot. rewrite sample_axis_distance. cbn [px py pz]. field.
Qed.

Lemma sample_sphere_radius : spec_sphere_radius (mkPoint 3 0 4) (mkPoint 0 0 0) = 5.
Proof.
  unfold spec_sphere_radius. cbn [px py pz]. rewrite <- sqrt_25. f_equal. ring.
Qed.

Lemma radii_by_normal_witness :
  (mkPoint 0 0 0 <> mkPoint 0 1 0 /\
   spec_axis_distance (mkPoint 3 5 4) (mkPoint 0 0 0) (mkPoint 0 1 0) = 5 /\
   spec_radial_dot (mkPoint 3 5 4) (mkPoint 0 0 0) (mkPoint 0 1 0) (mkPoint 1 0 0) = 3 / 5 /\
   computeGapRadii CYLINDER (mkPoint 3 5 4) (mkPoint 0 0 0) (mkPoint 0 1 0) (-1)
     (mkPoint 1 0 0) = Ok (5, 6, 5)) /\
  (spec_sphere_dot (mkPoint 3 0 4) (mkPoint 0 0 0) (mkPoint 0 1 0) = 0 /\
   exists msg,
     computeGapRadii SPHERE (mkPoint 3 0 4) (mkPoint 0 0 0) (mkPoint 0 0 0) (-1)
       (mkPoint 0 1 0) = MooseError msg) /\
  (spec_sphere_dot (mkPoint 3 0 4) (mkPoint 0 0 0) (mkPoint 0 0 (-1)) = -4 /\
   computeGapRadii SPHERE (mkPoint 3 0 4) (mkPoint 0 0 0) (mkPoint 0 0 0) (-1)
     (mkPoint 0 0 (-1)) = Ok (4, 5, 5)).
Proof.
  assert (Hne : mkPoint 0 0 0 <> mkPoint 0 1 0).
  { intros [= H]. lra. }
  assert (Hz : spec_sphere_dot (mkPoint 3 0 4) (mkPoint 0 0 0) (mkPoint 0 1 0) = 0)
    by (unfold spec_sphere_dot; cbn; lra).
  assert (Hn : spec_sphere_dot (mkPoint 3 0 4) (mkPoint 0 0 0) (mkPoint 0 0 (-1)) = -4)
    by (unfold spec_sphere_dot; cbn; lra).
  split; [| split].
  - split; [exact Hne |]. split; [exact sample_axis_distance |].
    split; [exact sample_radial_dot |].
    destruct (radii_by_normal (mkPoint 3 5 4) (mkPoint 0 0 0) (mkPoint 0 1 0)
                (mkPoint 1 0 0) (-1)) as (Hcyl & _ & _).
    destruct Hcyl as (_ & Hpos & _).
    + exact Hne.
    + rewrite sample_axis_distance. lra.
    + rewrite Hpos by (rewrite sample_radial_dot; lra).
      rewrite sample_axis_distance. replace (5 - -1) with 6 by lra. reflexivity.
  - split; [exact Hz |].
    destruct (radii_by_normal (mkPoint 3 0 4) (mkPoint 0 0 0) (mkPoint 0 0 0)
                (mkPoint 0 1 0) (-1)) as (_ & _ & H0 & _ & _).
    exact (H0 Hz).
  - split; [exact Hn |].
    destruct (radii_by_normal (mkPoint 3 0 4) (mkPoint 0 0 0) (mkPoint 0 0 0)
                (mkPoint 0 0 (-1)) (-1)) as (_ & _ & _ & _ & Hneg).
    rewrite Hneg by (rewrite Hn; lra).
    rewrite sample_sphere_radius. replace (5 + -1) with 4 by lra. reflexivity.
Defined.

(** ** Gap values in quadrature-based mode *)

Lemma interpolation_loop_frame phi sol idx i s :
  let s' := interpolation_loop phi sol idx i s in
  _has_info s' = _has_info s /\
  _gap_distance s' = _gap_distance s /\
  warning_log s' = warning_log s /\
  _gap_conductance s' = _gap_conductance s /\
  _gap_conductance_dT s' = _gap_conductance_dT s /\
  _gap_thermal_conductivity s' = _gap_thermal_conductivity s.
Proof.
  revert i s. induction idx as [| d rest IH]; intros i s; cbn.
  - repeat split.
  - destruct (IH (S i)
                (set_gap_temp (_gap_temp s + nth 0 (nth i phi []) 0 * sol d) s))
      as (H1 & H2 & H3 & H4 & H5 & H6).
    repeat split; assumption.
Qed.

Lemma interpolation_loop_sum phi sol idx i s :
  (i + length idx <= length phi)%nat ->
  _gap_temp (interpolation_loop phi sol idx i s) =
    _gap_temp s +
    spec_weighted_sum (map (fun phi_i => nth 0 phi_i 0) (drop i phi)) (map sol idx).
Proof.
  revert i s. induction idx as [| d rest IH]; intros i s Hlen; cbn [interpolation_loop].
  - unfold spec_weighted_sum. destruct (map _ (drop i phi)); cbn; lra.
  - cbn [length] in Hlen.
    destruct (lookup_lt_is_Some_2 phi i ltac:(lia)) as [row Hrow].
    rewrite IH by lia. cbn [_gap_temp set_gap_temp].
    rewrite (drop_S phi row i Hrow).
    rewrite (nth_lookup_Some phi i [] row Hrow).
    unfold spec_weighted_sum. cbn. lra.
Qed.

(** [resolveGapValues] in quadrature-based mode, by the search result. *)

Lemma resolveGapValues_no_match cfg ctx s :
  _quadrature cfg = true ->
  search_result s (node_id (getQuadratureNode ctx)) = None ->
  exists s1,
    resolveGapValues cfg ctx s = Ok (tt, s1) /\
    _has_info s1 = false /\ _gap_distance s1 = 88888 /\ _gap_temp s1 = 0 /\
    warning_log s1 =
      (if _warnings cfg then no_gap_value_warning ctx :: warning_log s
       else warning_log s) /\
    _gap_conductance s1 = _gap_conductance s /\
    _gap_conductance_dT s1 = _gap_conductance_dT s.
Proof.
  intros Hq Hnone. unfold search_result in Hnone. run. rewrite Hq. run.
  destruct (_penetration_info s !! node_id (getQuadratureNode ctx)) as [p |];
    [subst p |]; destruct (_warnings cfg); run;
    eexists; (split; [reflexivity |]); cbn; repeat split.
Qed.

Lemma resolveGapValues_match cfg ctx s pinfo :
  _quadrature cfg = true ->
  search_result s (node_id (getQuadratureNode ctx)) = Some pinfo ->
  exists s1,
    resolveGapValues cfg ctx s = Ok (tt, s1) /\
    _has_info s1 = true /\ _gap_distance s1 = _distance pinfo /\
    _gap_temp s1 =
      _gap_temp
        (interpolation_loop (_side_phi pinfo) (_serialized_solution ctx)
           (dof_indices ctx (_side pinfo)) 0 (set_gap_temp 0 s)) /\
    warning_log s1 = warning_log s.
Proof.
  intros Hq Hsome. unfold search_result in Hsome. run. rewrite Hq. run.
  destruct (_penetration_info s !! node_id (getQuadratureNode ctx)) as [p |];
    [subst p | discriminate].
  eexists; split; [reflexivity |].
  match goal with
  | |- context [interpolation_loop ?phi ?sol ?idx ?i ?s0] =>
      destruct (interpolation_loop_frame phi sol idx i s0) as (H1 & H2 & H3 & _)
  end.
  cbn zeta in H1, H2, H3.
  rewrite H1, H2, H3. cbn. repeat split.
  clear. generalize (dof_indices ctx (_side pinfo)) as idx.
  generalize 0%nat as i. generalize (_side_phi pinfo) as phi.
  intros phi i idx.
  assert (Hgen : forall a b, _gap_temp a = _gap_temp b ->
                 _gap_temp (interpolation_loop phi (_serialized_solution ctx) idx i a) =
                 _gap_temp (interpolation_loop phi (_serialized_solution ctx) idx i b)).
  { revert i. induction idx as [| d rest IH]; intros i a b Hab; cbn; [exact Hab |].
    apply IH. cbn. now rewrite Hab. }
  apply Hgen. reflexivity.
Qed.

Lemma callComputeGapRadii_unfold cfg ctx s :
  callComputeGapRadii cfg ctx s =
    match computeGapRadii (_gap_geometry_type cfg) (_q_point ctx (_qp ctx))
            (_p1 cfg) (_p2 cfg) (_gap_distance s) (_normals ctx (_qp ctx)) with
    | Ok (r1, r2, radius) => Ok (tt, set_radii r1 r2 radius s)
    | MooseError msg => MooseError msg
    end.
Proof.
  run. destruct (computeGapRadii _ _ _ _ _ _) as [[[r1 r2] radius] |]; reflexivity.
Qed.

(** After a point without a match, the evaluation of the point fails only
    where [computeGapRadii] does. *)
Lemma computeQpProperties_no_match_is_ok cfg ctx s s1 :
  resolveGapValues cfg ctx s = Ok (tt, s1) ->
  _has_info s1 = false ->
  is_ok (computeQpProperties cfg ctx s) =
    is_ok (computeGapRadii (_gap_geometry_type cfg) (_q_point ctx (_qp ctx))
             (_p1 cfg) (_p2 cfg) (_gap_distance s1) (_normals ctx (_qp ctx))).
Proof.
  intros Hres Hinfo.
  unfold computeQpProperties, computeGapValues, bind at 1 2. rewrite Hres.
  rewrite callComputeGapRadii_unfold.
  destruct (computeGapRadii _ _ _ _ _ _) as [[[r1 r2] radius] |]; [| reflexivity].
  rewrite computeQpConductance_no_contact by exact Hinfo. reflexivity.
Qed.

(** C8: in quadrature-based mode, when the search has no match for the
    quadrature node, the gap values become [has_info = false], distance 88888
    and temperature 0, one warning naming the node and its coordinates is
    logged exactly when warnings are enabled, and no error is raised: the
    evaluation goes on to [computeGapRadii] and fails only where that does.
    When there is a match, the distance is the search's and the temperature
    is the weighted sum, over the nodes of the opposing element, of weight
    times solution value. *)
Theorem quadrature_gap_values (cfg : Config) (ctx : Context) (s : State)
    (Hq : _quadrature cfg = true) :
  match search_result s (node_id (getQuadratureNode ctx)) with
  | None =>
      exists s1,
        resolveGapValues cfg ctx s = Ok (tt, s1) /\
        _has_info s1 = false /\ _gap_distance s1 = 88888 /\ _gap_temp s1 = 0 /\
        warning_log s1 =
          (if _warnings cfg then no_gap_value_warning ctx :: warning_log s
           else warning_log s) /\
        computeGapValues cfg ctx s = callComputeGapRadii cfg ctx s1 /\
        is_ok (computeQpProperties cfg ctx s) =
          is_ok (computeGapRadii (_gap_geometry_type cfg) (_q_point ctx (_qp ctx))
                   (_p1 cfg) (_p2 cfg) 88888 (_normals ctx (_qp ctx)))
  | Some pinfo =>
      exists s1,
        resolveGapValues cfg ctx s = Ok (tt, s1) /\
        _has_info s1 = true /\ _gap_distance s1 = _distance pinfo /\
        warning_log s1 = warning_log s /\
        ((length (dof_indices ctx (_side pinfo)) <= length (_side_phi pinfo))%nat ->
         _gap_temp s1 =
           spec_weighted_sum (weights_of pinfo)
             (map (_serialized_solution ctx) (dof_indices ctx (_side pinfo))))
  end.
Proof.
  destruct (search_result s (node_id (getQuadratureNode ctx))) as [pinfo |] eqn:Hsr.
  - destruct (resolveGapValues_match cfg ctx s pinfo Hq Hsr)
      as (s1 & Hres & Hinfo & Hdist & Htemp & Hlog).
    exists s1. repeat split; try assumption.
    intros Hlen. rewrite Htemp, interpolation_loop_sum by (cbn; lia).
    rewrite drop_0. cbn [_gap_temp set_gap_temp]. unfold weights_of. lra.
  - destruct (resolveGapValues_no_match cfg ctx s Hq Hsr)
      as (s1 & Hres & Hinfo & Hdist & Htemp & Hlog & _).
    exists s1. repeat split; try assumption.
    + unfold computeGapValues, bind. now rewrite Hres.
    + rewrite (computeQpProperties_no_match_is_ok cfg ctx s s1 Hres Hinfo).
      now rewrite Hdist.
Qed.

Lemma quadrature_gap_values_witness :
  (exists s1,
     resolveGapValues Sample.quad_cfg Sample.ctx (initial_state ∅) = Ok (tt, s1) /\
     _has_info s1 = false /\ _gap_distance s1 = 88888 /\ _gap_temp s1 = 0 /\
     warning_log s1 = [no_gap_value_warning Sample.ctx]) /\
  (exists s1,
     resolveGapValues Sample.quad_cfg Sample.ctx
       (initial_state {[7%nat := Some Sample.pinfo]}) = Ok (tt, s1) /\
     _has_info s1 = true /\ _gap_distance s1 = -1 /\
     _gap_temp s1 = spec_weighted_sum [1 / 2; 1 / 2] [2; 2]).
Proof.
  split.
  - destruct (quadrature_gap_values Sample.quad_cfg Sample.ctx (initial_state ∅)
                eq_refl) as (s1 & Hres & Hinfo & Hdist & Htemp & Hlog & _).
    exists s1. repeat split; assumption.
  - destruct (quadrature_gap_values Sample.quad_cfg Sample.ctx
                (initial_state {[7%nat := Some Sample.pinfo]}) eq_refl)
      as (s1 & Hres & Hinfo & Hdist & _ & Htemp).
    exists s1. repeat split; try assumption.
    apply Htemp. cbn. lia.
Defined.

(** ** The range of [min_gap] *)

Lemma setup_negative_min_gap params c v :
  v < 0 -> is_ok (setup (with_min_gap v params) c) = false.
Proof.
  intros Hv. unfold setup, checkRanges.
  destruct (rangeCheck "emissivity_1" _ _) as [[] |]; [| reflexivity].
  destruct (rangeCheck "emissivity_2" _ _) as [[] |]; [| reflexivity].
  cbn [bind_result min_gap with_min_gap].
  unfold rangeCheck at 1, min_gap_range. cbn [range_holds].
  rewrite bool_decide_eq_false_2 by lra. reflexivity.
Qed.

Lemma is_ok_bind_result {A B} (r : result A) (k : A -> result B) :
  is_ok (bind_result r k) = true <-> exists a, r = Ok a /\ is_ok (k a) = true.
Proof.
  destruct r as [a | m]; cbn; split.
  - intros H. now exists a.
  - now intros (a' & [= <-] & H).
  - discriminate.
  - now intros (a' & [=] & _).
Qed.

Lemma ctor_is_ok_min_gap params v :
  is_ok (GapConductance_ctor (with_min_gap v params)) = is_ok (GapConductance_ctor params).
Proof.
  unfold GapConductance_ctor. cbn [quadrature paired_boundary gap_distance gap_temp with_min_gap].
  destruct (quadrature params);
    [destruct (paired_boundary params)
    | destruct (gap_distance params); [destruct (gap_temp params) |]]; reflexivity.
Qed.

Lemma ctor_geometry params cfg :
  GapConductance_ctor params = Ok cfg ->
  _gap_geometry_type cfg = PLATE /\ _p1 cfg = mkPoint 0 0 0 /\ _p2 cfg = mkPoint 0 0 0.
Proof.
  unfold GapConductance_ctor.
  destruct (quadrature params);
    [destruct (paired_boundary params)
    | destruct (gap_distance params); [destruct (gap_temp params) |]];
    try discriminate; intros [= <-]; cbn; auto.
Qed.

Lemma checkRanges_ok params :
  checkRanges params = Ok tt <->
  range_holds emissivity_1_range (emissivity_1 params) = true /\
  range_holds emissivity_2_range (emissivity_2 params) = true /\
  range_holds min_gap_range (min_gap params) = true /\
  range_holds max_gap_range (max_gap params) = true.
Proof.
  unfold checkRanges, rangeCheck.
  destruct (range_holds emissivity_1_range _), (range_holds emissivity_2_range _),
    (range_holds min_gap_range _), (range_holds max_gap_range _);
    cbn; split; try discriminate; try tauto; intros (? & ? & ? & ?); discriminate.
Qed.

Lemma setup_zero_min_gap params c :
  is_ok (setup params c) = true -> is_ok (setup (with_min_gap 0 params) c) = true.
Proof.
  unfold setup. intros H.
  apply is_ok_bind_result in H as ([] & Hchk & H).
  apply is_ok_bind_result in H as (cfg & Hctor & H).
  apply checkRanges_ok in Hchk as (He1 & He2 & _ & Hmx).
  assert (Hchk0 : checkRanges (with_min_gap 0 params) = Ok tt).
  { apply checkRanges_ok. cbn [emissivity_1 emissivity_2 min_gap max_gap with_min_gap].
    repeat split; try assumption. now apply nonneg_range_holds. }
  rewrite Hchk0. cbn [bind_result].
  pose proof (ctor_is_ok_min_gap params 0) as Hsame. rewrite Hctor in Hsame.
  destruct (GapConductance_ctor (with_min_gap 0 params)) as [cfg0 |] eqn:Hctor0;
    [| discriminate]. cbn [bind_result].
  destruct (ctor_geometry _ _ Hctor) as (Hg & Hp1 & Hp2).
  destruct (ctor_geometry _ _ Hctor0) as (Hg0 & Hp10 & Hp20).
  unfold initialSetup in *. rewrite Hg0, Hp10, Hp20. rewrite Hg, Hp1, Hp2 in H.
  assert (Hgeo : setGapGeometryParameters (with_min_gap 0 params) c PLATE
                   (mkPoint 0 0 0) (mkPoint 0 0 0) =
                 setGapGeometryParameters params c PLATE (mkPoint 0 0 0) (mkPoint 0 0 0))
    by reflexivity.
  rewrite Hgeo.
  destruct (setGapGeometryParameters params c PLATE _ _) as [[[g q1] q2] |];
    [reflexivity | discriminate].
Qed.

(** C9, as stated, fails: [min_gap = -1] is at most 0, and setting up the
    sample model with it is a fatal error. *)
Lemma min_gap_nonpositive_counterexample :
  ~ (forall v : Real,
       v <= 0 -> is_ok (setup (with_min_gap v Sample.node_params) COORD_XYZ) = true).
Proof.
  intros H. specialize (H (-1) ltac:(lra)).
  rewrite setup_negative_min_gap in H by lra. discriminate.
Qed.

(** C9 (amended): the range check of [min_gap] passes exactly for values
    that are at least 0.  So [min_gap = 0] is permitted at configuration
    time (a set-up that succeeds still succeeds with [min_gap] set to 0),
    and every negative [min_gap] is a fatal error of the set-up. *)
Theorem min_gap_range_check (v : Real) :
  (rangeCheck "min_gap" min_gap_range v = Ok tt <-> 0 <= v) /\
  (forall params c,
      is_ok (setup params c) = true ->
      is_ok (setup (with_min_gap 0 params) c) = true) /\
  (forall params c, v < 0 -> is_ok (setup (with_min_gap v params) c) = false).
Proof.
  split; [| split].
  - rewrite rangeCheck_ok. apply nonneg_range_holds.
  - apply setup_zero_min_gap.
  - intros params c. apply setup_negative_min_gap.
Qed.

Lemma min_gap_range_check_witness :
  is_ok (setup (with_min_gap 0 Sample.node_params) COORD_XYZ) = true /\
  (-1 < 0 /\ is_ok (setup (with_min_gap (-1) Sample.node_params) COORD_XYZ) = false).
Proof.
  destruct (min_gap_range_check (-1)) as (_ & Hzero & Hneg).
  split.
  - apply Hzero. now rewrite setup_node_params.
  - assert (H : -1 < 0) by lra. split; [exact H | exact (Hneg _ _ H)].
Defined.

(** * Further properties of the code *)

(** ** Gap length and the conduction term *)

Lemma gapLength_gapRect g radius r1 r2 mn mx :
  exists raw, gapLength g radius r1 r2 mn mx = gapRect raw mn mx.
Proof.
  destruct g; cbn [gapLength]; unfold gapCyl, gapSphere, gapRect; eauto.
Qed.

Lemma gapLength_range g radius r1 r2 mn mx :
  mn <= mx -> mn <= gapLength g radius r1 r2 mn mx <= mx.
Proof.
  intros H. destruct (gapLength_gapRect g radius r1 r2 mn mx) as [raw ->].
  split; [apply gapRect_ge_min | now apply gapRect_le_max].
Qed.

(** X1: [gapRect] does not decrease when the raw length grows, and it
    returns a raw length that lies between the bounds unchanged. *)
Theorem gapRect_monotone (L1 L2 mn mx : Real) (HL : L1 <= L2) :
  gapRect L1 mn mx <= gapRect L2 mn mx /\
  (mn <= L1 <= mx -> gapRect L1 mn mx = L1).
Proof.
  split.
  - unfold gapRect, Std.max, Std.min. repeat case_decide; lra.
  - intros [Hlo Hhi]. unfold gapRect, Std.max, Std.min. repeat case_decide; lra.
Qed.

Lemma gapRect_monotone_witness :
  1 <= 3 /\ gapRect 1 2 5 <= gapRect 3 2 5 /\ gapRect 3 2 5 = 3.
Proof.
  assert (H13 : 1 <= 3) by lra.
  assert (H33 : 3 <= 3) by lra.
  split; [exact H13 |]. split.
  - exact (proj1 (gapRect_monotone 1 3 2 5 H13)).
  - apply (proj2 (gapRect_monotone 3 3 2 5 H33)). lra.
Defined.

(** X2: for every geometry and whatever the radii, the gap length that
    [gapLength] returns lies between [min_gap] and [max_gap] when
    [min_gap <= max_gap]; with [0 < min_gap] it is positive, so that the
    conduction term never divides by 0. *)
Theorem gapLength_bounds (g : GAP_GEOMETRY) (radius r1 r2 mn mx : Real)
    (Hord : mn <= mx) :
  mn <= gapLength g radius r1 r2 mn mx <= mx /\
  (0 < mn -> 0 < gapLength g radius r1 r2 mn mx).
Proof.
  pose proof (gapLength_range g radius r1 r2 mn mx Hord) as [Hlo Hhi].
  split; [split; assumption |]. intros Hpos. lra.
Qed.

Lemma gapLength_bounds_witness :
  1 <= 2 /\ 1 <= gapLength CYLINDER 3 3 4 1 2 <= 2 /\
  0 < gapLength SPHERE 3 3 4 1 2.
Proof.
  assert (H : 1 <= 2) by lra.
  split; [exact H |]. split.
  - exact (proj1 (gapLength_bounds CYLINDER 3 3 4 1 2 H)).
  - apply (proj2 (gapLength_bounds SPHERE 3 3 4 1 2 H)). lra.
Defined.

Lemma h_conduction_value cfg ctx s :
  h_conduction cfg ctx s =
    Ok (gapK cfg ctx s /
          gapLength (_gap_geometry_type cfg) (_radius s) (_r1 s) (_r2 s)
            (_min_gap cfg) (_max_gap cfg),
        set_gap_thermal_conductivity (_qp ctx) (gapK cfg ctx s) s).
Proof. run. now rewrite prop_at_insert. Qed.

Lemma div_antitone k a b : 0 <= k -> 0 < a -> a <= b -> k / b <= k / a.
Proof.
  intros Hk Ha Hab. unfold Rdiv.
  apply Rmult_le_compat_l; [exact Hk |].
  apply Rinv_le_contravar; assumption.
Qed.

(** X3: with [0 < min_gap <= max_gap] and a conductivity [gapK] that is not
    negative, the conduction term [h_conduction] lies between
    [gapK / max_gap] and [gapK / min_gap], for every geometry and whatever
    radii the state holds. *)
Theorem h_conduction_bounded (cfg : Config) (ctx : Context) (s : State)
    (Hmin : 0 < _min_gap cfg) (Hord : _min_gap cfg <= _max_gap cfg)
    (Hk : 0 <= gapK cfg ctx s) :
  exists hc s',
    h_conduction cfg ctx s = Ok (hc, s') /\
    gapK cfg ctx s / _max_gap cfg <= hc <= gapK cfg ctx s / _min_gap cfg.
Proof.
  rewrite h_conduction_value. eexists; eexists; split; [reflexivity |].
  pose proof (gapLength_range (_gap_geometry_type cfg) (_radius s) (_r1 s) (_r2 s)
                (_min_gap cfg) (_max_gap cfg) Hord) as [Hlo Hhi].
  split; apply div_antitone; (assumption || lra).
Qed.


Lemma h_conduction_bounded_witness :
  exists hc s',
    h_conduction (default_node_cfg _zero _zero) Sample.ctx (initial_state ∅) =
      Ok (hc, s') /\
    1 / 1000000 <= hc <= 1 / (1 / 1000000).
Proof.
  apply (h_conduction_bounded (default_node_cfg _zero _zero) Sample.ctx (initial_state ∅));
    cbn; lra.
Defined.

(** ** The radiation term and its derivative *)

Lemma h_radiation_value cfg ctx s :
  _emissivity cfg <> 0 ->
  h_radiation cfg ctx s =
    _stefan_boltzmann cfg *
    ((_temp ctx (_qp ctx) * _temp ctx (_qp ctx) + _gap_temp s * _gap_temp s) *
     (_temp ctx (_qp ctx) + _gap_temp s)) / _emissivity cfg.
Proof. intros H. unfold h_radiation. now rewrite decide_False. Qed.

Lemma dh_radiation_value cfg ctx s :
  _emissivity cfg <> 0 ->
  dh_radiation cfg ctx s =
    _stefan_boltzmann cfg *
    (3 * _temp ctx (_qp ctx) * _temp ctx (_qp ctx) +
     _gap_temp s * (2 * _temp ctx (_qp ctx) + _gap_temp s)) / _emissivity cfg.
Proof. intros H. unfold dh_radiation. now rewrite decide_False. Qed.

(** X4: the radiation term is the linearisation its comment describes: with
    a nonzero emissivity factor [Fe], [h_radiation] times the temperature
    difference [T - Tg] is [sigma * (T^4 - Tg^4) / Fe]. *)
Theorem h_radiation_linearisation (cfg : Config) (ctx : Context) (s : State)
    (HFe : _emissivity cfg <> 0) :
  let T := _temp ctx (_qp ctx) in
  let Tg := _gap_temp s in
  h_radiation cfg ctx s * (T - Tg) =
    _stefan_boltzmann cfg * (T ^ 4 - Tg ^ 4) / _emissivity cfg.
Proof.
  intros T Tg. rewrite h_radiation_value by exact HFe. fold T Tg.
  field. exact HFe.
Qed.

Lemma h_radiation_linearisation_witness :
  h_radiation Sample.node_cfg Sample.ctx (initial_state ∅) * (1 - 0) =
    1 * (1 ^ 4 - 0 ^ 4) / (1 / 1 + 1 / 1 - 1).
Proof.
  apply (h_radiation_linearisation Sample.node_cfg Sample.ctx (initial_state ∅)).
  cbn. lra.
Defined.

(** X5: the radiation term is symmetric in the two temperatures: exchanging
    the local temperature and the gap temperature leaves [h_radiation]
    unchanged. *)
Theorem h_radiation_symmetric (cfg : Config) (ctx : Context) (s : State) :
  h_radiation cfg (with_temp (_gap_temp s) ctx) (set_gap_temp (_temp ctx (_qp ctx)) s) =
    h_radiation cfg ctx s.
Proof.
  unfold h_radiation. case_decide; [reflexivity |].
  cbn [_temp with_temp _qp _gap_temp set_gap_temp]. unfold Rdiv. ring.
Qed.

(** X6: [dh_radiation] is the derivative of [h_radiation] with respect to
    the local temperature, at every temperature and for every emissivity
    factor (both are 0 when the factor is 0). *)
Theorem dh_radiation_is_derivative (cfg : Config) (ctx : Context) (s : State)
    (T : Real) :
  derivable_pt_lim (fun x => h_radiation cfg (with_temp x ctx) s) T
    (dh_radiation cfg (with_temp T ctx) s).
Proof.
  unfold h_radiation, dh_radiation.
  cbn [_temp with_temp _qp].
  case_decide as HFe.
  - apply derivable_pt_lim_const.
  - set (g := _gap_temp s). set (c := _stefan_boltzmann cfg). set (Fe := _emissivity cfg).
    assert (Hpoly : derivable_pt_lim
              (mult_real_fct c
                 (mult_fct (plus_fct (mult_fct id id) (fct_cte (g * g)))
                           (plus_fct id (fct_cte g))))
              T
              (c * ((1 * id T + id T * 1 + 0) * (plus_fct id (fct_cte g)) T +
                    (plus_fct (mult_fct id id) (fct_cte (g * g))) T * (1 + 0)))).
    { apply derivable_pt_lim_scal.
      apply derivable_pt_lim_mult.
      - apply derivable_pt_lim_plus;
          [apply derivable_pt_lim_mult; apply derivable_pt_lim_id
          | apply derivable_pt_lim_const].
      - apply derivable_pt_lim_plus;
          [apply derivable_pt_lim_id | apply derivable_pt_lim_const]. }
    intros eps Heps.
    assert (HFepos : 0 < Rabs Fe) by (apply Rabs_pos_lt; exact HFe).
    destruct (Hpoly (eps * Rabs Fe) ltac:(nra)) as [delta Hdelta].
    exists delta. intros h Hh Hlt.
    specialize (Hdelta h Hh Hlt).
    unfold mult_real_fct, mult_fct, plus_fct, fct_cte, id in Hdelta.
    match goal with
    | |- Rabs ?e < eps =>
        match type of Hdelta with
        | Rabs ?e' < _ => replace e with (e' / Fe) by (field; split; assumption)
        end
    end.
    unfold Rdiv at 1. rewrite Rabs_mult, Rabs_inv.
    apply (Rmult_lt_reg_r (Rabs Fe)); [exact HFepos |].
    rewrite Rmult_assoc, Rinv_l by lra. lra.
Qed.

Lemma Rinv_unit_eq_1 e : 0 <= e <= 1 -> e <> 0 -> 1 / e = 1 -> e = 1.
Proof.
  intros _ Hne H. unfold Rdiv in H. rewrite Rmult_1_l in H.
  pose proof (Rinv_r e Hne) as Hr. rewrite H in Hr. lra.
Qed.

(** X7: for an object that was set up, the emissivity factor is 0 exactly
    when one of the two emissivities is 0, and otherwise it is at least 1;
    it is 1 exactly when both emissivities are 1. *)
Theorem emissivity_factor_range (params : InputParameters)
    (coord_sys : CoordinateSystemType) (cfg : Config)
    (Hsetup : setup params coord_sys = Ok cfg) :
  (_emissivity cfg = 0 <-> emissivity_1 params = 0 \/ emissivity_2 params = 0) /\
  (_emissivity cfg = 0 \/ 1 <= _emissivity cfg) /\
  (_emissivity cfg = 1 <-> emissivity_1 params = 1 /\ emissivity_2 params = 1).
Proof.
  destruct (setup_ok _ _ _ Hsetup) as (He1 & He2 & _ & _ & HFe & _).
  destruct (decide (emissivity_1 params = 0)) as [Hz1 | Hn1].
  { rewrite (bool_decide_eq_false_2 (emissivity_1 params <> 0)) in HFe by tauto.
    cbn in HFe. rewrite HFe. repeat split; try tauto; intros; lra. }
  destruct (decide (emissivity_2 params = 0)) as [Hz2 | Hn2].
  { rewrite (bool_decide_eq_false_2 (emissivity_2 params <> 0)) in HFe by tauto.
    rewrite andb_false_r in HFe. rewrite HFe. repeat split; try tauto; intros; lra. }
  rewrite !bool_decide_eq_true_2 in HFe by assumption. cbn in HFe.
  pose proof (inv_unit_ge_1 _ He1 Hn1) as H1.
  pose proof (inv_unit_ge_1 _ He2 Hn2) as H2.
  rewrite HFe. split; [| split].
  - split; [intros; lra | tauto].
  - right. lra.
  - split.
    + intros H.
      split; apply Rinv_unit_eq_1; try assumption; lra.
    + intros [-> ->]. field.
Qed.

Lemma emissivity_factor_range_witness :
  (_emissivity Sample.node_cfg = 0 \/ 1 <= _emissivity Sample.node_cfg) /\
  (_emissivity Sample.quad_cfg = 0 <->
   emissivity_1 Sample.quad_params = 0 \/ emissivity_2 Sample.quad_params = 0).
Proof.
  split.
  - exact (proj1 (proj2 (emissivity_factor_range Sample.node_params COORD_XYZ
                           Sample.node_cfg setup_node_params))).
  - exact (proj1 (emissivity_factor_range Sample.quad_params COORD_XYZ
                    Sample.quad_cfg setup_quad_params)).
Defined.

(** X8: for an object that was set up, with [sigma] and both temperatures
    not negative, neither [h_radiation] nor [dh_radiation] is negative. *)
Theorem radiation_nonnegative (params : InputParameters)
    (coord_sys : CoordinateSystemType) (cfg : Config) (ctx : Context) (s : State)
    (Hsetup : setup params coord_sys = Ok cfg)
    (Hsigma : 0 <= _stefan_boltzmann cfg)
    (HT : 0 <= _temp ctx (_qp ctx)) (HTg : 0 <= _gap_temp s) :
  0 <= h_radiation cfg ctx s /\ 0 <= dh_radiation cfg ctx s.
Proof.
  destruct (setup_ok _ _ _ Hsetup) as (He1 & He2 & _ & _ & HFe & _).
  destruct (decide (_emissivity cfg = 0)) as [Hz | Hnz].
  { unfold h_radiation, dh_radiation. rewrite !decide_True by exact Hz. lra. }
  assert (Hpos : 0 < _emissivity cfg).
  { rewrite HFe in Hnz |- *.
    destruct (bool_decide (emissivity_1 params <> 0)) eqn:B1;
      [| cbn in Hnz; lra].
    destruct (bool_decide (emissivity_2 params <> 0)) eqn:B2;
      [| cbn in Hnz; lra].
    apply bool_decide_eq_true in B1, B2. cbn.
    pose proof (inv_unit_ge_1 _ He1 B1). pose proof (inv_unit_ge_1 _ He2 B2). lra. }
  rewrite h_radiation_value, dh_radiation_value by exact Hnz.
  pose proof (Rinv_0_lt_compat _ Hpos) as Hinv.
  split; unfold Rdiv; apply Rmult_le_pos; try lra; apply Rmult_le_pos; try lra; nra.
Qed.

Lemma radiation_nonnegative_witness :
  0 <= h_radiation Sample.node_cfg Sample.ctx (initial_state ∅) /\
  0 <= dh_radiation Sample.node_cfg Sample.ctx (initial_state ∅).
Proof.
  apply (radiation_nonnegative Sample.node_params COORD_XYZ Sample.node_cfg Sample.ctx
           (initial_state ∅) setup_node_params); cbn; lra.
Defined.

(** ** Radii and geometry *)

(** X9: whenever [computeGapRadii] returns, in every geometry, the two radii
    differ by the gap distance, [r2 - r1 = - gap_distance], so [r1 <= r2]
    for a gap distance that is not positive, and [radius] is one of the two
    radii. *)
Theorem radii_difference (g : GAP_GEOMETRY) (cp p1 p2 n : Point)
    (gd r1 r2 radius : Real)
    (Hok : computeGapRadii g cp p1 p2 gd n = Ok (r1, r2, radius)) :
  r2 - r1 = - gd /\ (gd <= 0 -> r1 <= r2) /\ (radius = r1 \/ radius = r2).
Proof.
  assert (H : r2 - r1 = - gd /\ (radius = r1 \/ radius = r2)).
  { revert Hok. destruct g; unfold computeGapRadii; repeat case_decide;
      try discriminate; intros [= <- <- <-]; split; try lra; auto. }
  destruct H as [Hd Hr]. repeat split; [exact Hd | intros; lra | exact Hr].
Qed.

Lemma radii_difference_witness :
  - -2 - 0 = - -2 /\ (0 = 0 \/ 0 = - -2).
Proof.
  destruct (radii_difference PLATE (mkPoint 1 0 0) (mkPoint 0 0 0) (mkPoint 0 0 0)
              (mkPoint 1 0 0) (-2) 0 (- -2) 0 eq_refl) as (H1 & _ & H2).
  split; [exact H1 | exact H2].
Defined.

(** X10: for a cylinder axis through two distinct points, the vector
    [rad_vec] from the axis to the current point is perpendicular to the
    axis: the point [p] found on the axis is the foot of the perpendicular. *)
Theorem cyl_rad_vec_perpendicular (cp p1 p2 : Point)
    (Haxis : Pt.norm_sq (Pt.sub p2 p1) <> 0) :
  Pt.dot (cyl_rad_vec cp p1 p2) (Pt.sub p2 p1) = 0.
Proof.
  unfold cyl_rad_vec.
  set (a := Pt.sub p2 p1) in *.
  set (b := Pt.sub p1 cp).
  assert (Hcp : forall t, Pt.dot (Pt.sub cp (Pt.add p1 (Pt.scale t a))) a =
                          - Pt.dot b a - t * Pt.norm_sq a).
  { intros t. unfold Pt.dot, Pt.sub, Pt.add, Pt.scale, Pt.norm_sq, Pt.dot, b.
    cbn. ring. }
  cbn zeta. rewrite Hcp. field. exact Haxis.
Qed.

Lemma cyl_rad_vec_perpendicular_witness :
  Pt.dot (cyl_rad_vec (mkPoint 1 2 3) (mkPoint 0 0 0) (mkPoint 0 1 0))
    (Pt.sub (mkPoint 0 1 0) (mkPoint 0 0 0)) = 0.
Proof.
  apply cyl_rad_vec_perpendicular.
  unfold Pt.norm_sq, Pt.dot, Pt.sub. cbn. lra.
Defined.

Lemma axisymmetric_rad_vec x y z :
  cyl_rad_vec (mkPoint x y z) (mkPoint 0 0 0) (mkPoint 0 1 0) = mkPoint x 0 z.
Proof.
  unfold cyl_rad_vec, Pt.sub, Pt.add, Pt.scale, Pt.dot, Pt.norm_sq, Pt.dot. cbn.
  f_equal; field.
Qed.

(** X11: with the axis that [setGapGeometryParameters] fixes for an
    axisymmetric model, through (0,0,0) and (0,1,0), a point [(r, y, 0)] with
    [r > 0] has [rad = r], and the branch is decided by the sign of the
    normal's first component: positive gives [(r, r - gap_distance, r)],
    negative [(r + gap_distance, r, r)], and 0 is the fatal error. *)
Theorem axisymmetric_radii (r y gd : Real) (n : Point) (Hr : 0 < r) :
  cyl_rad (mkPoint r y 0) (mkPoint 0 0 0) (mkPoint 0 1 0) = r /\
  computeGapRadii CYLINDER (mkPoint r y 0) (mkPoint 0 0 0) (mkPoint 0 1 0) gd n =
    (if decide (px n > 0) then Ok (r, r - gd, r)
     else if decide (px n < 0) then Ok (r + gd, r, r)
     else MooseError "Issue with cylindrical flux calc. normals.").
Proof.
  assert (Hrad : cyl_rad (mkPoint r y 0) (mkPoint 0 0 0) (mkPoint 0 1 0) = r).
  { unfold cyl_rad. rewrite axisymmetric_rad_vec.
    unfold Pt.norm, Pt.norm_sq, Pt.dot. cbn.
    replace (r * r + 0 * 0 + 0 * 0) with (r * r) by ring.
    apply sqrt_square. lra. }
  assert (Hdot : cyl_rad_dot_norm (mkPoint r y 0) (mkPoint 0 0 0) (mkPoint 0 1 0) n =
                 px n).
  { unfold cyl_rad_dot_norm. fold (cyl_rad (mkPoint r y 0) (mkPoint 0 0 0) (mkPoint 0 1 0)).
    rewrite Hrad, axisymmetric_rad_vec. unfold Pt.dot, Pt.div. cbn. field. lra. }
  split; [exact Hrad |].
  unfold computeGapRadii. rewrite Hrad, Hdot.
  rewrite (decide_False (P := Pt.norm_sq _ = 0))
    by (unfold Pt.norm_sq, Pt.dot, Pt.sub; cbn; lra).
  rewrite (decide_False (P := r = 0)) by lra.
  reflexivity.
Qed.

Lemma axisymmetric_radii_witness :
  cyl_rad (mkPoint 2 5 0) (mkPoint 0 0 0) (mkPoint 0 1 0) = 2 /\
  computeGapRadii CYLINDER (mkPoint 2 5 0) (mkPoint 0 0 0) (mkPoint 0 1 0) (-1)
    (mkPoint (-1) 0 0) = Ok (2 + -1, 2, 2).
Proof.
  destruct (axisymmetric_radii 2 5 (-1) (mkPoint (-1) 0 0)) as [Hrad Hres]; [lra |].
  split; [exact Hrad |].
  rewrite Hres. cbn [px].
  rewrite decide_False by lra. rewrite decide_True by lra. reflexivity.
Defined.

Lemma norm_sq_nonneg a : 0 <= Pt.norm_sq a.
Proof. unfold Pt.norm_sq, Pt.dot. nra. Qed.

(** X12: for SPHERE, when the normal at a point other than the origin is the
    radial direction (the point minus the origin), [computeGapRadii] takes
    the inside-surface branch, [(rad, rad - gap_distance, rad)] with [rad]
    the distance to the origin; when it is the opposite direction it takes
    the outside-surface branch, [(rad + gap_distance, rad, rad)]. *)
Theorem sphere_radial_normal (cp p1 p2 : Point) (gd : Real)
    (Hoff : Pt.norm_sq (Pt.sub cp p1) <> 0) :
  let rad := Pt.norm (Pt.sub cp p1) in
  0 < rad /\
  computeGapRadii SPHERE cp p1 p2 gd (Pt.sub cp p1) = Ok (rad, rad - gd, rad) /\
  computeGapRadii SPHERE cp p1 p2 gd (Pt.scale (-1) (Pt.sub cp p1)) =
    Ok (rad + gd, rad, rad).
Proof.
  intros rad.
  pose proof (norm_sq_nonneg (Pt.sub cp p1)) as Hnn.
  assert (Hpos : 0 < Pt.norm_sq (Pt.sub cp p1)) by lra.
  split; [apply sqrt_lt_R0; exact Hpos |].
  unfold computeGapRadii, sph_normal_dot, sph_curr_point_radius.
  fold (Pt.norm_sq (Pt.sub cp p1)). fold rad.
  assert (Hneg : Pt.dot (Pt.sub cp p1) (Pt.scale (-1) (Pt.sub cp p1)) =
                 - Pt.norm_sq (Pt.sub cp p1)).
  { unfold Pt.norm_sq, Pt.dot, Pt.scale. cbn. ring. }
  rewrite Hneg. split.
  - rewrite decide_True by lra. reflexivity.
  - rewrite decide_False by lra. rewrite decide_True by lra. reflexivity.
Qed.

Lemma sphere_radial_normal_witness :
  0 < Pt.norm (Pt.sub (mkPoint 3 0 0) (mkPoint 0 0 0)) /\
  computeGapRadii SPHERE (mkPoint 3 0 0) (mkPoint 0 0 0) (mkPoint 0 0 0) (-1)
    (Pt.sub (mkPoint 3 0 0) (mkPoint 0 0 0)) =
    Ok (Pt.norm (Pt.sub (mkPoint 3 0 0) (mkPoint 0 0 0)),
        Pt.norm (Pt.sub (mkPoint 3 0 0) (mkPoint 0 0 0)) - -1,
        Pt.norm (Pt.sub (mkPoint 3 0 0) (mkPoint 0 0 0))).
Proof.
  destruct (sphere_radial_normal (mkPoint 3 0 0) (mkPoint 0 0 0) (mkPoint 0 0 0) (-1))
    as (Hpos & Hin & _).
  - unfold Pt.norm_sq, Pt.dot, Pt.sub. cbn. lra.
  - split; [exact Hpos | exact Hin].
Defined.

Lemma ln_le_sub1 x : 0 < x -> ln x <= x - 1.
Proof.
  intros Hx.
  pose proof (exp_ineq1_le (x - 1)) as H.
  replace (1 + (x - 1)) with x in H by ring.
  destruct (Rle_lt_or_eq_dec _ _ H) as [Hlt | Heq].
  - left. rewrite <- (ln_exp (x - 1)). apply ln_increasing; assumption.
  - right. rewrite Heq at 1. apply ln_exp.
Qed.

Lemma gapRect_le L1 L2 mn mx : L1 <= L2 -> gapRect L1 mn mx <= gapRect L2 mn mx.
Proof. intros H. unfold gapRect, Std.max, Std.min. repeat case_decide; lra. Qed.

(** X13: curvature against the flat gap.  For a gap of width [w >= 0] at a
    surface of radius [R > 0], the CYLINDER and SPHERE gap lengths are at most
    the PLATE gap length when the point is on the inside surface
    ([r1 = R], [r2 = R + w], [radius = r1]), and at least the PLATE gap length
    when it is on the outside surface ([r1 = R - w > 0], [r2 = R],
    [radius = r2]). *)
Theorem curved_gap_against_plate (R w mn mx : Real) (HR : 0 < R) (Hw : 0 <= w) :
  gapLength CYLINDER R R (R + w) mn mx <= gapLength PLATE 0 0 w mn mx /\
  gapLength SPHERE R R (R + w) mn mx <= gapLength PLATE 0 0 w mn mx /\
  (0 < R - w ->
   gapLength PLATE 0 0 w mn mx <= gapLength CYLINDER R (R - w) R mn mx /\
   gapLength PLATE 0 0 w mn mx <= gapLength SPHERE R (R - w) R mn mx).
Proof.
  cbn [gapLength]. unfold gapCyl, gapSphere, Std.log, Std.pow2.
  fold (gapRect (R * ln ((R + w) / R)) mn mx).
  fold (gapRect (R * R * (1 / R - 1 / (R + w))) mn mx).
  fold (gapRect (R * ln (R / (R - w))) mn mx).
  fold (gapRect (R * R * (1 / (R - w) - 1 / R)) mn mx).
  replace (w - 0) with w by ring.
  assert (HRinv : 0 < / R) by (apply Rinv_0_lt_compat; exact HR).
  split; [| split].
  - apply gapRect_le.
    assert (Hq : 0 < (R + w) / R) by (unfold Rdiv; apply Rmult_lt_0_compat; lra).
    pose proof (ln_le_sub1 _ Hq) as Hln.
    replace ((R + w) / R - 1) with (w / R) in Hln by (field; lra).
    replace w with (R * (w / R)) at 2 by (field; lra).
    apply Rmult_le_compat_l; lra.
  - apply gapRect_le.
    assert (HRw : 0 < / (R + w)) by (apply Rinv_0_lt_compat; lra).
    replace (R * R * (1 / R - 1 / (R + w))) with (w * (R * / (R + w))) by (field; lra).
    assert (Hfrac : R * / (R + w) <= 1).
    { apply (Rmult_le_reg_r (R + w)); [lra |].
      rewrite Rmult_assoc, Rinv_l by lra. lra. }
    nra.
  - intros Hin.
    assert (HRwinv : 0 < / (R - w)) by (apply Rinv_0_lt_compat; exact Hin).
    split; apply gapRect_le.
    + assert (Hq : 0 < (R - w) / R) by (unfold Rdiv; apply Rmult_lt_0_compat; lra).
      pose proof (ln_le_sub1 _ Hq) as Hln.
      replace ((R - w) / R - 1) with (- (w / R)) in Hln by (field; lra).
      assert (Hinv : ln (R / (R - w)) = - ln ((R - w) / R)).
      { rewrite <- ln_Rinv by exact Hq. f_equal. field. lra. }
      rewrite Hinv.
      replace w with (R * (w / R)) at 1 by (field; lra).
      apply Rmult_le_compat_l; lra.
    + replace (R * R * (1 / (R - w) - 1 / R)) with (w * (R * / (R - w))) by (field; lra).
      assert (Hfrac : 1 <= R * / (R - w)).
      { apply (Rmult_le_reg_r (R - w)); [lra |].
        rewrite Rmult_assoc, Rinv_l by lra. lra. }
      nra.
Qed.

Lemma curved_gap_against_plate_witness :
  gapLength CYLINDER 2 2 (2 + 1) 0 10 <= gapLength PLATE 0 0 1 0 10 /\
  gapLength PLATE 0 0 1 0 10 <= gapLength SPHERE 2 (2 - 1) 2 0 10.
Proof.
  destruct (curved_gap_against_plate 2 1 0 10) as (Hc & _ & Hout); [lra | lra |].
  split; [exact Hc |]. apply Hout. lra.
Defined.

(** ** The evaluation of a point as a whole *)

Lemma interpolation_loop_set phi sol idx i s :
  interpolation_loop phi sol idx i s =
    set_gap_temp (loop_temp phi sol idx i (_gap_temp s)) s.
Proof.
  revert i s. induction idx as [| d rest IH]; intros i s; cbn [interpolation_loop loop_temp].
  - destruct s; reflexivity.
  - rewrite IH. reflexivity.
Qed.

Lemma search_result_insert_null s id id' :
  _penetration_info s !! id = None ->
  search_result (set_penetration_info (<[id := None]> (_penetration_info s)) s) id' =
    search_result s id'.
Proof.
  intros Hnone. unfold search_result. cbn [_penetration_info set_penetration_info].
  destruct (decide (id = id')) as [<- | Hne].
  - now rewrite lookup_insert_eq, Hnone.
  - now rewrite lookup_insert_ne.
Qed.

(** [resolveGapValues] always returns; it leaves the radii, the three
    properties and every search result as they were. *)
Lemma resolveGapValues_total cfg ctx s :
  exists s1,
    resolveGapValues cfg ctx s = Ok (tt, s1) /\
    _radius s1 = _radius s /\ _r1 s1 = _r1 s /\ _r2 s1 = _r2 s /\
    _gap_conductance s1 = _gap_conductance s /\
    _gap_conductance_dT s1 = _gap_conductance_dT s /\
    _gap_thermal_conductivity s1 = _gap_thermal_conductivity s /\
    (forall id, search_result s1 id = search_result s id).
Proof.
  run. destruct (_quadrature cfg); run.
  - destruct (_penetration_info s !! node_id (getQuadratureNode ctx))
      as [[p |] |] eqn:Hlk; run.
    + rewrite interpolation_loop_set.
      eexists; split; [reflexivity |]. cbn. repeat split.
    + destruct (_warnings cfg); run; eexists; (split; [reflexivity |]);
        cbn; repeat split.
    + destruct (_warnings cfg); run; eexists; (split; [reflexivity |]);
        cbn; repeat split; intros id;
        apply (search_result_insert_null s _ id Hlk).
  - eexists; split; [reflexivity |]. cbn. repeat split.
Qed.

Lemma computeQpConductance_total cfg ctx s :
  exists s',
    computeQpConductance cfg ctx s = Ok (tt, s') /\
    _penetration_info s' = _penetration_info s /\
    forall qp', qp' <> _qp ctx ->
      _gap_conductance s' !! qp' = _gap_conductance s !! qp' /\
      _gap_conductance_dT s' !! qp' = _gap_conductance_dT s !! qp' /\
      _gap_thermal_conductivity s' !! qp' = _gap_thermal_conductivity s !! qp'.
Proof.
  destruct (_has_info s) eqn:Hinfo.
  - rewrite computeQpConductance_contact by exact Hinfo.
    eexists; split; [reflexivity |]. cbn. split; [reflexivity |].
    intros qp' Hne. now rewrite !lookup_insert_ne by auto.
  - rewrite computeQpConductance_no_contact by exact Hinfo.
    eexists; split; [reflexivity |]. cbn. split; [reflexivity |].
    intros qp' Hne. now rewrite !lookup_insert_ne by auto.
Qed.

Lemma computeQpProperties_is_ok cfg ctx s :
  is_ok (computeQpProperties cfg ctx s) =
    is_ok (computeGapRadii (_gap_geometry_type cfg) (_q_point ctx (_qp ctx))
             (_p1 cfg) (_p2 cfg) 0 (_normals ctx (_qp ctx))).
Proof.
  destruct (resolveGapValues_total cfg ctx s) as (s1 & Hres & _).
  unfold computeQpProperties, computeGapValues, bind at 1 2. rewrite Hres.
  rewrite callComputeGapRadii_unfold.
  rewrite (computeGapRadii_is_ok_distance _ _ _ _ 0 (_gap_distance s1)).
  destruct (computeGapRadii _ _ _ _ (_gap_distance s1) _) as [[[r1 r2] radius] |];
    [| reflexivity].
  destruct (computeQpConductance_total cfg ctx (set_radii r1 r2 radius s1))
    as (s' & -> & _).
  reflexivity.
Qed.

(** X14: the evaluation of a point, [computeQpProperties], raises an error
    exactly when [computeGapRadii] does for the point, the geometry and the
    normal; the mode, the search result, the gap distance and the
    temperatures play no part.  For PLATE it always returns. *)
Theorem evaluation_fails_only_on_normal (cfg : Config) (ctx : Context) (s : State) :
  is_ok (computeQpProperties cfg ctx s) =
    is_ok (computeGapRadii (_gap_geometry_type cfg) (_q_point ctx (_qp ctx))
             (_p1 cfg) (_p2 cfg) 0 (_normals ctx (_qp ctx))) /\
  (_gap_geometry_type cfg = PLATE -> is_ok (computeQpProperties cfg ctx s) = true).
Proof.
  split; [apply computeQpProperties_is_ok |].
  intros Hplate. rewrite computeQpProperties_is_ok, Hplate. reflexivity.
Qed.

Lemma evaluation_fails_only_on_normal_witness :
  is_ok (computeQpProperties Sample.quad_cfg Sample.ctx (initial_state ∅)) = true.
Proof.
  apply (evaluation_fails_only_on_normal Sample.quad_cfg Sample.ctx (initial_state ∅)).
  reflexivity.
Defined.

(** X15: an evaluation that returns writes the three properties at the
    current quadrature point only: at every other point they are as before,
    and so is the search result of every node. *)
Theorem evaluation_frame (cfg : Config) (ctx : Context) (s s' : State)
    (Hrun : computeQpProperties cfg ctx s = Ok (tt, s')) :
  (forall qp', qp' <> _qp ctx ->
     _gap_conductance s' !! qp' = _gap_conductance s !! qp' /\
     _gap_conductance_dT s' !! qp' = _gap_conductance_dT s !! qp' /\
     _gap_thermal_conductivity s' !! qp' = _gap_thermal_conductivity s !! qp') /\
  (forall id, search_result s' id = search_result s id).
Proof.
  destruct (resolveGapValues_total cfg ctx s)
    as (s1 & Hres & _ & _ & _ & Hc & Hd & Hk & Hsr).
  revert Hrun.
  unfold computeQpProperties, computeGapValues, bind at 1 2. rewrite Hres.
  rewrite callComputeGapRadii_unfold.
  destruct (computeGapRadii _ _ _ _ (_gap_distance s1) _) as [[[r1 r2] radius] |];
    [| discriminate].
  destruct (computeQpConductance_total cfg ctx (set_radii r1 r2 radius s1))
    as (s2 & -> & Hpi & Hframe).
  intros [= <-]. split.
  - intros qp' Hne. destruct (Hframe qp' Hne) as (H1 & H2 & H3).
    cbn in H1, H2, H3. rewrite H1, H2, H3, Hc, Hd, Hk. auto.
  - intros id. rewrite <- Hsr. unfold search_result. now rewrite Hpi.
Qed.

Lemma sample_node_evaluation :
  computeQpProperties Sample.node_cfg Sample.ctx (initial_state ∅) =
    Ok (tt,
        set_gap_conductance_dT 0 0
          (set_gap_conductance 0
             (1 / gapLength PLATE 0 0 (- -1) 0 1000000 +
              h_radiation Sample.node_cfg Sample.ctx
                (set_gap_thermal_conductivity 0 1
                   (set_radii 0 (- -1) 0
                      (set_gap_distance (-1) (set_gap_temp 0 (set_has_info true
                         (initial_state ∅)))))))
             (set_gap_thermal_conductivity 0 1
                (set_radii 0 (- -1) 0
                   (set_gap_distance (-1) (set_gap_temp 0 (set_has_info true
                      (initial_state ∅)))))))).
Proof.
  unfold computeQpProperties, bind. rewrite computeGapValues_node_sample.
  rewrite computeQpConductance_contact by reflexivity. reflexivity.
Qed.

Lemma evaluation_frame_witness :
  _gap_conductance (initial_state ∅) !! 1%nat = None /\
  exists s',
    computeQpProperties Sample.node_cfg Sample.ctx (initial_state ∅) = Ok (tt, s') /\
    _gap_conductance s' !! 1%nat = None.
Proof.
  split; [reflexivity |].
  eexists; split; [apply sample_node_evaluation |].
  destruct (evaluation_frame Sample.node_cfg Sample.ctx (initial_state ∅) _
              sample_node_evaluation) as [Hframe _].
  destruct (Hframe 1%nat) as (H & _ & _); [cbn; lia |].
  rewrite H. reflexivity.
Defined.

(** The members that a point's evaluation assigns before it reads them do
    not reach [resolveGapValues]'s result, apart from the radii it leaves. *)
Lemma resolveGapValues_stale cfg ctx s a b c d e f :
  exists s1,
    resolveGapValues cfg ctx s = Ok (tt, s1) /\
    resolveGapValues cfg ctx (with_point_members a b c d e f s) =
      Ok (tt, with_point_members (_gap_temp s1) (_gap_distance s1) c d e
                (_has_info s1) s1).
Proof.
  run. destruct (_quadrature cfg); run.
  - change (_penetration_info (with_point_members a b c d e f s))
      with (_penetration_info s).
    destruct (_penetration_info s !! node_id (getQuadratureNode ctx))
      as [[p |] |] eqn:Hlk; run.
    + rewrite !interpolation_loop_set.
      eexists; split; reflexivity.
    + destruct (_warnings cfg); run; eexists; split; reflexivity.
    + destruct (_warnings cfg); run; eexists; split; reflexivity.
  - eexists; split; reflexivity.
Qed.

(** X16: no state is carried from one point to the next through the members
    [_gap_temp], [_gap_distance], [_radius], [_r1], [_r2] and [_has_info]:
    whatever values they hold before, [computeQpProperties] gives the same
    result. *)
Theorem evaluation_ignores_stale_members (cfg : Config) (ctx : Context) (s : State)
    (gap_temp0 gap_distance0 radius0 r10 r20 : Real) (has_info0 : bool) :
  computeQpProperties cfg ctx
    (with_point_members gap_temp0 gap_distance0 radius0 r10 r20 has_info0 s) =
  computeQpProperties cfg ctx s.
Proof.
  destruct (resolveGapValues_stale cfg ctx s gap_temp0 gap_distance0 radius0 r10 r20
              has_info0) as (s1 & Hres & Hres').
  unfold computeQpProperties, computeGapValues, bind.
  rewrite Hres, Hres'. rewrite !callComputeGapRadii_unfold.
  cbn [with_point_members _gap_distance].
  destruct (computeGapRadii _ _ _ _ (_gap_distance s1) _) as [[[r1 r2] radius] |];
    reflexivity.
Qed.





Lemma setup_default_node d t :
  setup (with_coupled_gap d t validParams) COORD_XYZ = Ok (default_node_cfg d t).
Proof.
  unfold setup, checkRanges, rangeCheck, emissivity_1_range, emissivity_2_range,
    min_gap_range, max_gap_range, range_holds, validParams, with_coupled_gap.
  cbn [emissivity_1 emissivity_2 min_gap max_gap].
  decide_reals. cbn [andb bind_result].
  unfold GapConductance_ctor. cbn. decide_reals. reflexivity.
Qed.

Lemma inv_between a b x : 0 < a -> a <= x <= b -> 1 / b <= 1 / x <= 1 / a.
Proof.
  intros Ha [Hlo Hhi]. split; apply div_antitone; lra.
Qed.

(** X18: the defaults.  With only [gap_distance] and [gap_temp] coupled and
    every other parameter at its default, the set-up succeeds in Cartesian
    coordinates; radiation is off, and at every point the stored conductance
    is [1 / gapRect (- gap_distance) 1e-6 1e6], which lies between 1e-6 and
    1e6, with derivative 0. *)
Theorem default_parameters_evaluation (d t : VariableValue) (ctx : Context)
    (s : State) :
  setup (with_coupled_gap d t validParams) COORD_XYZ = Ok (default_node_cfg d t) /\
  exists s' h,
    computeQpProperties (default_node_cfg d t) ctx s = Ok (tt, s') /\
    _gap_conductance s' !! _qp ctx = Some h /\
    h = 1 / gapRect (- d (_qp ctx)) (1 / 1000000) 1000000 /\
    1 / 1000000 <= h <= 1000000 /\
    _gap_conductance_dT s' !! _qp ctx = Some 0.
Proof.
  split; [apply setup_default_node |].
  unfold computeQpProperties, computeGapValues, bind at 1 2.
  assert (Hres : resolveGapValues (default_node_cfg d t) ctx s =
                 Ok (tt, set_gap_distance (d (_qp ctx))
                           (set_gap_temp (t (_qp ctx)) (set_has_info true s))))
    by reflexivity.
  rewrite Hres, callComputeGapRadii_unfold. cbn [computeGapRadii default_node_cfg
    _gap_geometry_type].
  rewrite computeQpConductance_contact by reflexivity.
  eexists; eexists; split; [reflexivity |]. cbn.
  rewrite !lookup_insert_eq. split; [reflexivity |].
  unfold h_radiation. cbn [_emissivity]. rewrite decide_True by reflexivity.
  replace (- d (_qp ctx) - 0) with (- d (_qp ctx)) by ring.
  split; [ring |]. split; [| reflexivity].
  rewrite Rplus_0_r.
  pose proof (gapRect_ge_min (- d (_qp ctx)) (1 / 1000000) 1000000) as Hlo.
  pose proof (gapRect_le_max (- d (_qp ctx)) (1 / 1000000) 1000000 ltac:(lra)) as Hhi.
  pose proof (inv_between (1 / 1000000) 1000000 _ ltac:(lra) (conj Hlo Hhi)) as [H1 H2].
  split; [exact H1 |].
  replace (1 / (1 / 1000000)) with 1000000 in H2 by field. exact H2.
Qed.

(** ** Construction and set-up *)

Lemma ctor_is_ok params :
  is_ok (GapConductance_ctor params) = mode_parameters_ok params.
Proof.
  unfold GapConductance_ctor, mode_parameters_ok.
  destruct (quadrature params);
    [destruct (paired_boundary params)
    | destruct (gap_distance params); [destruct (gap_temp params) |]]; reflexivity.
Qed.

(** X19: the constructor fails exactly on the mode's missing parameters: in
    quadrature-based mode when [paired_boundary] is not given, and in
    node-based mode when [gap_distance] or [gap_temp] is not coupled, with
    [gap_distance] reported first.  In quadrature-based mode a coupled
    [gap_distance] or [gap_temp] is ignored. *)
Theorem constructor_mode_checks (params : InputParameters) :
  is_ok (GapConductance_ctor params) = mode_parameters_ok params /\
  (quadrature params = false -> gap_distance params = None ->
   GapConductance_ctor params = MooseError "No 'gap_distance' provided for ") /\
  (quadrature params = true ->
   forall d t, GapConductance_ctor (with_coupled_gap d t params) =
               GapConductance_ctor params).
Proof.
  split; [apply ctor_is_ok |]. split.
  - intros Hq Hd. unfold GapConductance_ctor. now rewrite Hq, Hd.
  - intros Hq d t. unfold GapConductance_ctor.
    cbn [quadrature paired_boundary with_coupled_gap]. rewrite Hq. reflexivity.
Qed.

Lemma constructor_mode_checks_witness :
  GapConductance_ctor validParams = MooseError "No 'gap_distance' provided for " /\
  GapConductance_ctor (with_coupled_gap _zero _zero Sample.quad_params) =
    GapConductance_ctor Sample.quad_params.
Proof.
  destruct (constructor_mode_checks validParams) as (_ & Hnode & _).
  destruct (constructor_mode_checks Sample.quad_params) as (_ & _ & Hquad).
  split.
  - apply Hnode; reflexivity.
  - apply Hquad. reflexivity.
Defined.

Lemma checkRanges_is_ok params : is_ok (checkRanges params) = ranges_ok params.
Proof.
  unfold checkRanges, rangeCheck, ranges_ok.
  destruct (range_holds emissivity_1_range _), (range_holds emissivity_2_range _),
    (range_holds min_gap_range _), (range_holds max_gap_range _); reflexivity.
Qed.

Lemma checkRanges_unit params u : checkRanges params = Ok u -> ranges_ok params = true.
Proof. intros H. rewrite <- checkRanges_is_ok, H. reflexivity. Qed.

Lemma initialSetup_fields params c cfg0 cfg :
  initialSetup params c cfg0 = Ok cfg ->
  _quadrature cfg = _quadrature cfg0 /\
  _warnings cfg = _warnings cfg0 /\
  _gap_conductivity cfg = _gap_conductivity cfg0 /\
  _gap_distance_value cfg = _gap_distance_value cfg0 /\
  _gap_temp_value cfg = _gap_temp_value cfg0.
Proof.
  unfold initialSetup.
  destruct (setGapGeometryParameters _ _ _ _ _) as [[[g q1] q2] |]; [| discriminate].
  cbn [bind_result]. intros [= <-]. cbn. auto.
Qed.

(** X20: the set-up of an object succeeds exactly when the four range checks
    pass, the mode's parameters are given, and the geometry type (the user's,
    or the default of the coordinate system) is one the coordinate system and
    the given points allow; the object then has that geometry type and the
    mode and warning flags of the parameters. *)
Theorem setup_succeeds_iff (params : InputParameters) (c : CoordinateSystemType) :
  is_ok (setup params c) =
    ranges_ok params && mode_parameters_ok params &&
    spec_accepts (spec_geometry_type (gap_geometry_type params) c) c params /\
  (forall cfg, setup params c = Ok cfg ->
     _gap_geometry_type cfg = spec_geometry_type (gap_geometry_type params) c /\
     _quadrature cfg = quadrature params /\
     _warnings cfg = warnings params).
Proof.
  split.
  - unfold setup. rewrite <- checkRanges_is_ok, <- ctor_is_ok.
    destruct (checkRanges params) as [[] |]; [| reflexivity].
    cbn [bind_result is_ok andb].
    destruct (GapConductance_ctor params) as [cfg0 |]; [| reflexivity].
    cbn [bind_result is_ok andb]. unfold initialSetup.
    rewrite <- (setGapGeometryParameters_is_ok params c (_gap_geometry_type cfg0)
                  (_p1 cfg0) (_p2 cfg0)).
    destruct (setGapGeometryParameters _ _ _ _ _) as [[[g q1] q2] |]; reflexivity.
  - intros cfg. unfold setup.
    destruct (checkRanges params) as [[] |]; [| discriminate].
    cbn [bind_result].
    destruct (GapConductance_ctor params) as [cfg0 |] eqn:Hctor; [| discriminate].
    cbn [bind_result]. intros Hinit.
    destruct (initialSetup_fields _ _ _ _ Hinit) as (Hq & Hw & _).
    assert (Hcfg0 : _quadrature cfg0 = quadrature params /\
                    _warnings cfg0 = warnings params).
    { revert Hctor. unfold GapConductance_ctor.
      destruct (quadrature params);
        [destruct (paired_boundary params)
        | destruct (gap_distance params); [destruct (gap_temp params) |]];
        try discriminate; intros [= <-]; cbn; auto. }
    destruct Hcfg0 as [Hq0 Hw0]. rewrite Hq, Hw, Hq0, Hw0.
    split; [| auto].
    revert Hinit. unfold initialSetup.
    generalize (_gap_geometry_type cfg0) (_p1 cfg0) (_p2 cfg0). intros g0 q1 q2.
    unfold setGapGeometryParameters, spec_geometry_type.
    destruct (gap_geometry_type params) as [[] |], c;
      destruct (cylinder_axis_point_1 params), (cylinder_axis_point_2 params),
        (sphere_origin params); cbn; try discriminate; intros [= <-]; reflexivity.
Qed.

Lemma setup_succeeds_iff_witness :
  _gap_geometry_type Sample.node_cfg = PLATE /\
  _quadrature Sample.node_cfg = false /\
  _warnings Sample.node_cfg = false.
Proof.
  exact (proj2 (setup_succeeds_iff Sample.node_params COORD_XYZ) Sample.node_cfg
           setup_node_params).
Defined.

(** ** The interpolation and the warnings *)

Lemma weighted_sum_constant (ws : list R) (sol : dof_id_type -> R)
    (idx : list dof_id_type) (c : R) :
  length idx = length ws ->
  (forall d, In d idx -> sol d = c) ->
  spec_weighted_sum ws (map sol idx) = c * fold_right Rplus 0 ws.
Proof.
  unfold spec_weighted_sum. revert ws.
  induction idx as [| d rest IH]; intros [| w ws] Hlen Hc; try discriminate; cbn.
  - ring.
  - rewrite IH; [| now injection Hlen | intros d' Hd'; apply Hc; now right].
    rewrite (Hc d) by now left. ring.
Qed.

(** X22: the interpolated gap temperature reproduces a constant field.  In
    quadrature-based mode with a match, if the weights are as many as the
    nodes of the opposing element and sum to 1, and the solution has the same
    value at all these nodes, then [_gap_temp] is that value. *)
Theorem interpolation_of_constant (cfg : Config) (ctx : Context) (s : State)
    (pinfo : PenetrationInfo) (c : Real)
    (Hq : _quadrature cfg = true)
    (Hmatch : search_result s (node_id (getQuadratureNode ctx)) = Some pinfo)
    (Hlen : length (dof_indices ctx (_side pinfo)) = length (_side_phi pinfo))
    (Hunity : fold_right Rplus 0 (weights_of pinfo) = 1)
    (Hconst : forall d, In d (dof_indices ctx (_side pinfo)) ->
                        _serialized_solution ctx d = c) :
  exists s1,
    resolveGapValues cfg ctx s = Ok (tt, s1) /\
    _has_info s1 = true /\ _gap_temp s1 = c.
Proof.
  destruct (resolveGapValues_match cfg ctx s pinfo Hq Hmatch)
    as (s1 & Hres & Hinfo & _ & Htemp & _).
  exists s1. split; [exact Hres |]. split; [exact Hinfo |].
  rewrite Htemp, interpolation_loop_sum by (cbn; lia).
  rewrite drop_0. cbn [_gap_temp set_gap_temp].
  fold (weights_of pinfo).
  rewrite (weighted_sum_constant _ _ _ c); [rewrite Hunity; ring | | exact Hconst].
  unfold weights_of. now rewrite length_map.
Qed.

Lemma interpolation_of_constant_witness :
  exists s1,
    resolveGapValues Sample.quad_cfg Sample.ctx
      (initial_state {[7%nat := Some Sample.pinfo]}) = Ok (tt, s1) /\
    _has_info s1 = true /\ _gap_temp s1 = 2.
Proof.
  apply (interpolation_of_constant Sample.quad_cfg Sample.ctx
           (initial_state {[7%nat := Some Sample.pinfo]}) Sample.pinfo 2).
  - reflexivity.
  - reflexivity.
  - reflexivity.
  - cbn. lra.
  - intros d _. reflexivity.
Defined.

Lemma resolveGapValues_log cfg ctx s :
  exists s1,
    resolveGapValues cfg ctx s = Ok (tt, s1) /\
    warning_log s1 =
      (if _quadrature cfg && _warnings cfg &&
          negb (isParamValid (search_result s (node_id (getQuadratureNode ctx))))
       then no_gap_value_warning ctx :: warning_log s
       else warning_log s).
Proof.
  run. unfold search_result. destruct (_quadrature cfg); run.
  - destruct (_penetration_info s !! node_id (getQuadratureNode ctx))
      as [[p |] |] eqn:Hlk; run.
    + rewrite interpolation_loop_set.
      eexists; split; [reflexivity |]. cbn. now rewrite andb_false_r.
    + destruct (_warnings cfg); run; eexists; (split; [reflexivity |]);
        reflexivity.
    + destruct (_warnings cfg); run; eexists; (split; [reflexivity |]);
        reflexivity.
  - eexists; split; reflexivity.
Qed.

(** X23: an evaluation that returns logs at most one warning, and logs it
    exactly when the mode is quadrature-based, warnings are enabled and the
    search has no match for the quadrature node; in node-based mode, with
    warnings disabled, or with a match, the log is left as it was. *)
Theorem evaluation_warning_log (cfg : Config) (ctx : Context) (s s' : State)
    (Hrun : computeQpProperties cfg ctx s = Ok (tt, s')) :
  warning_log s' =
    (if _quadrature cfg && _warnings cfg &&
        negb (isParamValid (search_result s (node_id (getQuadratureNode ctx))))
     then no_gap_value_warning ctx :: warning_log s
     else warning_log s).
Proof.
  destruct (resolveGapValues_log cfg ctx s) as (s1 & Hres & Hlog).
  revert Hrun.
  unfold computeQpProperties, computeGapValues, bind at 1 2. rewrite Hres.
  rewrite callComputeGapRadii_unfold.
  destruct (computeGapRadii _ _ _ _ (_gap_distance s1) _) as [[[r1 r2] radius] |];
    [| discriminate].
  rewrite <- Hlog.
  destruct (_has_info (set_radii r1 r2 radius s1)) eqn:Hinfo.
  - rewrite computeQpConductance_contact by exact Hinfo. now intros [= <-].
  - rewrite computeQpConductance_no_contact by exact Hinfo. now intros [= <-].
Qed.

Lemma evaluation_warning_log_witness :
  exists s',
    computeQpProperties Sample.node_cfg Sample.ctx (initial_state ∅) = Ok (tt, s') /\
    warning_log s' = [].
Proof.
  eexists; split; [apply sample_node_evaluation |].
  exact (evaluation_warning_log Sample.node_cfg Sample.ctx (initial_state ∅) _
           sample_node_evaluation).
Defined.

(** X24: PLATE saturation.  For PLATE the gap length that follows from
    [computeGapRadii] is the clamp of [- gap_distance]: with
    [min_gap <= max_gap] it is [min_gap] for a closed or overlapping gap
    ([- gap_distance <= min_gap], in particular every positive gap distance),
    [max_gap] for a gap at least that wide, and [- gap_distance] itself in
    between. *)
Theorem plate_gap_saturation (cp p1 p2 n : Point) (gd mn mx : Real)
    (Hord : mn <= mx) :
  exists r1 r2 radius,
    computeGapRadii PLATE cp p1 p2 gd n = Ok (r1, r2, radius) /\
    gapLength PLATE radius r1 r2 mn mx = gapRect (- gd) mn mx /\
    (- gd <= mn -> gapLength PLATE radius r1 r2 mn mx = mn) /\
    (mx <= - gd -> gapLength PLATE radius r1 r2 mn mx = mx) /\
    (mn <= - gd <= mx -> gapLength PLATE radius r1 r2 mn mx = - gd).
Proof.
  eexists; eexists; eexists; split; [reflexivity |].
  cbn [gapLength]. replace (- gd - 0) with (- gd) by ring.
  split; [reflexivity |].
  unfold gapRect, Std.max, Std.min.
  repeat split; intros; repeat case_decide; lra.
Qed.

Lemma plate_gap_saturation_witness :
  exists r1 r2 radius,
    computeGapRadii PLATE (mkPoint 0 0 0) (mkPoint 0 0 0) (mkPoint 0 0 0) 5
      (mkPoint 1 0 0) = Ok (r1, r2, radius) /\
    gapLength PLATE radius r1 r2 (1 / 1000000) 1000000 = 1 / 1000000.
Proof.
  destruct (plate_gap_saturation (mkPoint 0 0 0) (mkPoint 0 0 0) (mkPoint 0 0 0)
              (mkPoint 1 0 0) 5 (1 / 1000000) 1000000)
    as (r1 & r2 & radius & Hrad & _ & Hclosed & _); [lra |].
  exists r1, r2, radius. split; [exact Hrad |]. apply Hclosed. lra.
Defined.
